(** * The editing core of the readline line editor, embedded in Rocq

    Shallow embedding of the Go sources [vim-utils.go], [selection.go],
    [history.go] and the widget file (standard widgets: [selfInsert],
    [forwardChar], [switchKeyword], ...), followed by the properties of the
    specification that concern them.

    Conventions of the embedding.
    - Go's [int] is modelled by [Z].  Every integer the modelled code computes
      is a buffer length, a position or one of these plus or minus a small
      constant, so 64-bit wrap-around never takes place and is not written out.
    - A [rune] is a [Z] (Go's [int32] code point).  The line buffer [rl.line]
      is a [[]rune], modelled by [list rune]; [len] of it is [length].
    - A Go [string] is modelled by the sequence of code points it encodes
      ([gostring]).  Every string of the modelled code comes out of a
      conversion [string(runes)], which replaces code points that UTF-8 cannot
      encode by U+FFFD ([string_of_runes]).  Go's [len] of a string counts
      BYTES of the UTF-8 encoding: it is [len_string], not [length].
    - A run-time panic (index or slice out of range) is an explicit outcome:
      pure readers return [option], state-changing methods return a [result]
      that carries the state reached when the method returned or faulted. *)

From Stdlib Require Import ZArith Lia Ascii.
From stdpp Require Import gmap strings list.

Local Open Scope Z_scope.

(** ** Runes and strings *)

Abbreviation rune := Z (only parsing).

Abbreviation gostring := (list Z) (only parsing).

(** The code point of an ASCII character literal, as in Go's ['{']. *)
Definition chr (c : ascii) : rune := Z.of_nat (nat_of_ascii c).

(** An ASCII string literal as a Go string. *)
Fixpoint str (s : string) : gostring :=
  match s with
  | EmptyString => []
  | String c rest => chr c :: str rest
  end.

(** Code points that UTF-8 encodes: 0..0x10FFFF without the surrogates. *)
Definition valid_rune (r : rune) : bool :=
  (0 <=? r) && (r <=? 0x10FFFF) && negb ((0xD800 <=? r) && (r <=? 0xDFFF)).

Definition RuneError : rune := 0xFFFD.

(** [string(rs)] for [rs : []rune]. *)
Definition string_of_runes (rs : list rune) : gostring :=
  map (fun r => if valid_rune r then r else RuneError) rs.

(** [[]rune(s)] for a string [s] (always valid UTF-8 here). *)
Definition runes_of_string (s : gostring) : list rune := s.

(** Number of bytes of the UTF-8 encoding of a code point. *)
Definition utf8_len (r : rune) : Z :=
  if negb (valid_rune r) then 3
  else if r <? 0x80 then 1
  else if r <? 0x800 then 2
  else if r <? 0x10000 then 3
  else 4.

(** Go's [len(s)] for a string: the number of bytes. *)
Definition len_string (s : gostring) : Z :=
  foldr (fun r n => utf8_len r + n) 0 s.

(** Go's [len(l)] for a slice. *)
Definition len {A} (l : list A) : Z := Z.of_nat (length l).

(** [l[i]]: [None] is the index-out-of-range panic. *)
Definition index {A} (l : list A) (i : Z) : option A :=
  if 0 <=? i then l !! Z.to_nat i else None.

(** [l[lo:hi]]: [None] is the slice-bounds panic.  Go checks [hi] against the
    capacity of the slice, which is not modelled: the embedding takes the
    capacity to be the length.  The faults established below are index faults,
    [lo > hi] or [l[lo:]] with [lo > len(l)], which panic for every capacity. *)
Definition slice {A} (l : list A) (lo hi : Z) : option (list A) :=
  if (0 <=? lo) && (lo <=? hi) && (hi <=? len l)
  then Some (take (Z.to_nat (hi - lo)) (drop (Z.to_nat lo) l))
  else None.

(** [l[lo:]] *)
Definition slice_from {A} (l : list A) (lo : Z) : option (list A) :=
  slice l lo (len l).

(** [l[:hi]] *)
Definition slice_to {A} (l : list A) (hi : Z) : option (list A) :=
  slice l 0 hi.

(** Equality of strings, [s == t]. *)
Fixpoint string_eqb (s t : gostring) : bool :=
  match s, t with
  | [], [] => true
  | a :: s', b :: t' => (a =? b) && string_eqb s' t'
  | _, _ => false
  end.

(** [strings.HasPrefix(s, p)] *)
Fixpoint has_prefix (s p : gostring) : bool :=
  match p, s with
  | [], _ => true
  | b :: p', a :: s' => (a =? b) && has_prefix s' p'
  | _ :: _, [] => false
  end.

(** [strings.ReplaceAll(s, old, "")]: the occurrences of [old] are removed
    from left to right without overlap.  For an empty [old] the library
    inserts the (empty) replacement between the code points: [s] comes back.
    The library works on bytes; since UTF-8 is self-synchronising an
    occurrence of a valid string in a valid string starts at a code point.
    [remove_all skip s old] scans [s] with [skip] runes of a match still to
    be dropped. *)
Fixpoint remove_all (skip : nat) (s old : gostring) : gostring :=
  match s with
  | [] => []
  | c :: rest =>
      match skip with
      | S skip' => remove_all skip' rest old
      | O =>
          if has_prefix s old
          then remove_all (length old - 1) rest old
          else c :: remove_all 0 rest old
      end
  end.

Definition ReplaceAll_empty (s old : gostring) : gostring :=
  match old with
  | [] => s
  | _ => remove_all 0 s old
  end.

(** The removal of the first occurrence only, in the words of the
    specification of [vimDeleteToken] ("removes the first textual occurrence
    of that token's exact string"): [strings.Replace(s, old, "", 1)]. *)
Fixpoint remove_first_occurrence (s old : gostring) : gostring :=
  match s with
  | [] => []
  | c :: rest =>
      if has_prefix s old then drop (length old) s
      else c :: remove_first_occurrence rest old
  end.

(** ** The character classes of the regular expressions in use *)

Definition is_digit (r : rune) : bool := (chr "0" <=? r) && (r <=? chr "9").

Definition is_alpha (r : rune) : bool :=
  ((chr "a" <=? r) && (r <=? chr "z")) || ((chr "A" <=? r) && (r <=? chr "Z")).

Definition is_sign (r : rune) : bool := (r =? chr "+") || (r =? chr "-").

(** [[0-9a-zA-Z_]] *)
Definition word_class (r : rune) : bool :=
  is_digit r || is_alpha r || (r =? chr "_").

(** [[^0-9a-zA-Z_ ]] *)
Definition punct_class (r : rune) : bool :=
  negb (word_class r || (r =? chr " ")).

(** [regexp.MatchString(p, s)] for a pattern of two classes in sequence
    (such as [[+-][0-9]]): some position of [s] carries a rune of the first
    class followed by one of the second. *)
Fixpoint match_pair (c1 c2 : rune -> bool) (s : gostring) : bool :=
  match s with
  | a :: ((b :: _) as rest) => (c1 a && c2 b) || match_pair c1 c2 rest
  | _ => false
  end.

(** ** The editing session *)

(** [undoItem] of [initHistory]. *)
Record undoItem := mkUndo { undo_line : gostring; undo_pos : Z }.

(** The [History] interface, as far as [walkHistory] calls it.  [GetLine]
    returns the pair (line, error) with [None] for a [nil] error; the outer
    [option] is a panic of the backend. *)
Record History := mkHistory {
  GetLine : Z -> option (gostring * option string);
  Len : Z
}.

Record Instance := mkInstance {
  line : list rune;
  pos : Z;
  mark : Z;
  activeRegion : bool;
  visualLine : bool;
  keys : gostring;
  register : list rune;
  undoHistory : list undoItem;
  undoSkipAppend : bool;
  histPos : Z;
  lineBuf : gostring;
  historySourcePos : Z;
  historyNames : list string;
  histories : gmap string History;
  prompt : string;
  printed : list string;
  redisplays : nat
}.

Definition set_line (l : list rune) (rl : Instance) : Instance :=
  mkInstance l (pos rl) (mark rl) (activeRegion rl) (visualLine rl) (keys rl)
    (register rl) (undoHistory rl) (undoSkipAppend rl) (histPos rl)
    (lineBuf rl) (historySourcePos rl) (historyNames rl) (histories rl)
    (prompt rl) (printed rl) (redisplays rl).

Definition set_pos (p : Z) (rl : Instance) : Instance :=
  mkInstance (line rl) p (mark rl) (activeRegion rl) (visualLine rl) (keys rl)
    (register rl) (undoHistory rl) (undoSkipAppend rl) (histPos rl)
    (lineBuf rl) (historySourcePos rl) (historyNames rl) (histories rl)
    (prompt rl) (printed rl) (redisplays rl).

Definition set_mark (m : Z) (a : bool) (rl : Instance) : Instance :=
  mkInstance (line rl) (pos rl) m a (visualLine rl) (keys rl)
    (register rl) (undoHistory rl) (undoSkipAppend rl) (histPos rl)
    (lineBuf rl) (historySourcePos rl) (historyNames rl) (histories rl)
    (prompt rl) (printed rl) (redisplays rl).

Definition set_undo (u : list undoItem) (skip : bool) (rl : Instance) : Instance :=
  mkInstance (line rl) (pos rl) (mark rl) (activeRegion rl) (visualLine rl)
    (keys rl) (register rl) u skip (histPos rl)
    (lineBuf rl) (historySourcePos rl) (historyNames rl) (histories rl)
    (prompt rl) (printed rl) (redisplays rl).

Definition set_hist (hp : Z) (buf : gostring) (src : Z) (rl : Instance) : Instance :=
  mkInstance (line rl) (pos rl) (mark rl) (activeRegion rl) (visualLine rl)
    (keys rl) (register rl) (undoHistory rl) (undoSkipAppend rl) hp
    buf src (historyNames rl) (histories rl)
    (prompt rl) (printed rl) (redisplays rl).

(** [print(s)]: the text is appended to what the terminal received. *)
Definition print (s : string) (rl : Instance) : Instance :=
  mkInstance (line rl) (pos rl) (mark rl) (activeRegion rl) (visualLine rl)
    (keys rl) (register rl) (undoHistory rl) (undoSkipAppend rl) (histPos rl)
    (lineBuf rl) (historySourcePos rl) (historyNames rl) (histories rl)
    (prompt rl) (printed rl ++ [s]) (redisplays rl).

(** [rl.redisplay()]: a request to the renderer, counted. *)
Definition redisplay (rl : Instance) : Instance :=
  mkInstance (line rl) (pos rl) (mark rl) (activeRegion rl) (visualLine rl)
    (keys rl) (register rl) (undoHistory rl) (undoSkipAppend rl) (histPos rl)
    (lineBuf rl) (historySourcePos rl) (historyNames rl) (histories rl)
    (prompt rl) (printed rl) (S (redisplays rl)).

(** The cursor invariant of the data model. *)
Definition cursor_ok (rl : Instance) : Prop := 0 <= pos rl <= len (line rl).

(** ** Outcome of a method that changes the session

    [Done a rl] : the method returned [a] in state [rl].
    [Fault rl]  : the method panicked; [rl] is the state at that point. *)
Inductive result (A : Type) : Type :=
  | Done (a : A) (rl : Instance)
  | Fault (rl : Instance).
Arguments Done {A} a rl.
Arguments Fault {A} rl.

Definition final {A} (r : result A) : Instance :=
  match r with Done _ rl => rl | Fault rl => rl end.

Definition faulted {A} (r : result A) : bool :=
  match r with Done _ _ => false | Fault _ => true end.

Definition M (A : Type) : Type := Instance -> result A.

Definition ret {A} (a : A) : M A := fun rl => Done a rl.

Definition bind {A B} (m : M A) (k : A -> M B) : M B :=
  fun rl => match m rl with
            | Done a rl' => k a rl'
            | Fault rl' => Fault rl'
            end.

(** A read that may panic. *)
Definition try {A} (o : Instance -> option A) : M A :=
  fun rl => match o rl with Some a => Done a rl | None => Fault rl end.

(** A state update that cannot panic. *)
Definition modify (f : Instance -> Instance) : M unit :=
  fun rl => Done tt (f rl).

Definition get {A} (f : Instance -> A) : M A := fun rl => Done (f rl) rl.

Declare Scope go_scope.
Delimit Scope go_scope with go.
Notation "x <- m ;; k" := (bind m (fun x => k))
  (at level 100, m at next level, right associativity) : go_scope.
Notation "m ;;; k" := (bind m (fun _ => k))
  (at level 100, right associativity) : go_scope.

Local Open Scope go_scope.

(** ** Parts of the package outside the verified files

    The tokenisers, [substrPos], [lineSlice], the keyword switchers and a few
    display helpers are called by the verified code but defined elsewhere in
    the package.  They are parameters of the embedding.  [substrPos] returns
    a position only and is taken to read the session without changing it;
    [lineSlice] is taken to read the line and the cursor. *)

(** [type tokeniser func(line []rune, cursorPos int) (split []string, index int, newPos int)] *)
Definition tokeniser := list rune -> Z -> list gostring * Z * Z.

(** A keyword switcher: [(changed, word, obpos, oepos) = switcher(selection, increase)]. *)
Definition switcher := gostring -> bool -> bool * gostring * Z * Z.

Record Helpers := mkHelpers {
  tokeniseBrackets : tokeniser;
  substrPos : Instance -> rune -> bool -> Z;
  lineSlice : list rune -> Z -> Z -> gostring;
  keywordSwitchers : list switcher;
  removeSuffixInserted : Instance -> Instance;
  resetHelpers : Instance -> Instance;
  clearLine : Instance -> Instance;
  charCtrlA : Z;
  charCtrlUnderscore : Z
}.

(** ** Tokenisers *)

Definition is_blank (r : rune) : bool := (r =? chr " ") || (r =? 9).

(** [split[len(split)-1] += string(r)] *)
Fixpoint append_last (split : list gostring) (r : rune) : list gostring :=
  match split with
  | [] => [[r]]
  | [t] => [t ++ [r]]
  | t :: rest => t :: append_last rest r
  end.

Fixpoint splitSpaces_loop (rest : list rune) (i : Z) (prev_blank : bool)
    (linePos : Z) (split : list gostring) (idx off : Z) : list gostring * Z * Z :=
  match rest with
  | [] => (split, idx, off)
  | r :: rest' =>
      let split' :=
        if negb (is_blank r) && prev_blank then split ++ [[r]]
        else append_last split r in
      let '(idx', off') :=
        if i =? linePos
        then (len split' - 1, len (List.last split' []) - 1)
        else (idx, off) in
      splitSpaces_loop rest' (i + 1) (is_blank r) linePos split' idx' off'
  end.

(** Modelled from the spec: the source of [tokeniseSplitSpaces] is not among
    the verified files.  Section 4.1 describes it: the whitespace-only
    tokeniser splits the line strictly on blank runs; the tokens partition the
    buffer, a blank run belonging to the token it ends (section 4.2 trims the
    trailing blanks of a token, and the backward-kill-word scenario of section
    8 has the token ["hello "]); it reports the token that contains the cursor
    and the offset inside it; the empty buffer yields no token and 0, 0; the
    cursor at the end of the buffer yields the last token and its length. *)
Definition tokeniseSplitSpaces : tokeniser := fun ln linePos =>
  match ln with
  | [] => ([], 0, 0)
  | _ =>
      let '(split, idx, off) :=
        splitSpaces_loop (string_of_runes ln) 0 false linePos [[]] 0 0 in
      if linePos =? len ln
      then (split, len split - 1, len (List.last split []))
      else (split, idx, off)
  end.

(** Modelled from the spec: [rTrimWhiteSpace] is not among the verified
    files; section 4.2: "trims trailing blanks from the token text". *)
Fixpoint rTrimWhiteSpace (s : gostring) : gostring :=
  match s with
  | [] => []
  | r :: rest =>
      match rTrimWhiteSpace rest with
      | [] => if is_blank r then [] else [r]
      | rest' => r :: rest'
      end
  end.

(** ** vim-utils.go : movement *)

Definition viJumpB (tk : tokeniser) (rl : Instance) : option Z :=
  let '(split, idx, off) := tk (line rl) (pos rl) in
  if len split =? 0 then Some 0
  else if (idx =? 0) && (off =? 0) then Some 0
  else if off =? 0 then
    match index split (idx - 1) with
    | None => None
    | Some prev => Some (len_string prev * -1)
    end
  else Some (off * -1).

Definition viJumpE (tk : tokeniser) (rl : Instance) : option Z :=
  let '(split, idx, off) := tk (line rl) (pos rl) in
  if len split =? 0 then Some 0
  else
    match index split idx with
    | None => None
    | Some tok =>
        let word := rTrimWhiteSpace tok in
        if (idx =? len split - 1) && (off >=? len_string word - 1) then Some 0
        else if off >=? len_string word - 1 then
          match index split (idx + 1) with
          | None => None
          | Some next =>
              let word' := rTrimWhiteSpace next in
              Some (len_string tok - off + (len_string word' - 1))
          end
        else Some (len_string word - off - 1)
    end.

Definition viJumpW (tk : tokeniser) (rl : Instance) : option Z :=
  let '(split, idx, off) := tk (line rl) (pos rl) in
  if len split =? 0 then Some 0
  else if idx + 1 =? len split then Some (len (line rl) - pos rl)
  else
    match index split idx with
    | None => None
    | Some tok => Some (len_string tok - off)
    end.

(** The loop [for i := rl.pos - 1; i != 0; i-- { ... rl.line[i] ... }],
    entered with [i] a natural number. *)
Fixpoint previousBrace_loop (ln : list rune) (p : Z) (i : nat) : option Z :=
  match i with
  | O => Some 0
  | S i' =>
      match ln !! i with
      | None => None
      | Some c =>
          if c =? chr "{" then Some (Z.of_nat i - p)
          else previousBrace_loop ln p i'
      end
  end.

Definition viJumpPreviousBrace (rl : Instance) : option Z :=
  if pos rl =? 0 then Some 0
  else if pos rl - 1 <? 0 then None
  else previousBrace_loop (line rl) (pos rl) (Z.to_nat (pos rl - 1)).

(** The loop [for i := rl.pos + 1; i < len(rl.line); i++] over the runes from
    [rl.pos + 1] on; [d] is [i - rl.pos]. *)
Fixpoint nextBrace_loop (rest : list rune) (d : Z) : Z :=
  match rest with
  | [] => 0
  | c :: rest' => if c =? chr "{" then d else nextBrace_loop rest' (d + 1)
  end.

Definition viJumpNextBrace (rl : Instance) : option Z :=
  if pos rl >=? len (line rl) - 1 then Some 0
  else if pos rl + 1 <? 0 then None
  else Some (nextBrace_loop (drop (Z.to_nat (pos rl + 1)) (line rl)) 1).

Definition viJumpBracket (h : Helpers) (rl : Instance) : option Z :=
  let '(split, idx, off) := tokeniseBrackets h (line rl) (pos rl) in
  if len split =? 0 then Some 0
  else if off =? 0 then
    match index split idx with
    | None => None
    | Some tok => Some (len_string tok)
    end
  else Some (off * -1).

(** ** vim-utils.go : matchers *)

Definition matchSurround (r : rune) : rune * rune :=
  if r =? chr "{" then (r, chr "}")
  else if r =? chr "(" then (r, chr ")")
  else if r =? chr "[" then (r, chr "]")
  else if r =? chr "<" then (r, chr ">")
  else if r =? chr "}" then (chr "{", chr "}")
  else if r =? chr ")" then (chr "(", chr ")")
  else if r =? chr "]" then (chr "[", chr "]")
  else if r =? chr ">" then (chr "<", chr ">")
  else (r, r).

(** ** vim-utils.go : deletion *)

Definition vimDeleteToken (r : rune) : M bool :=
  tokens <- get (fun rl => fst (fst (tokeniseSplitSpaces (line rl) 0))) ;;
  let n := r - 48 in
  if n >? len tokens then ret false
  else
    tok <- try (fun _ => index tokens (n - 1)) ;;
    s <- get (fun rl => string_of_runes (line rl)) ;;
    let newLine := ReplaceAll_empty s tok in
    if string_eqb newLine s then ret false
    else
      modify (set_line (runes_of_string newLine)) ;;;
      modify redisplay ;;;
      overshoot <- get (fun rl => pos rl >? len (line rl)) ;;
      (if overshoot : bool
       then modify (fun rl => set_pos (len (line rl) - 1) rl)
       else ret tt) ;;;
      ret true.

(** ** selection.go : main selection helpers *)

Definition markSelection (m : Z) : M unit := modify (set_mark m true).

Definition resetSelection : M unit := modify (set_mark (-1) false).

(** The visual-line loop [for i, char := range rl.line[epos:]]: the range
    expression is evaluated once, [epos] is then advanced by the loop index
    of every rune before the first newline. *)
Fixpoint visualLine_loop (rest : list rune) (i epos : Z) : Z :=
  match rest with
  | [] => epos
  | char :: rest' =>
      if char =? 10 then epos else visualLine_loop rest' (i + 1) (epos + i)
  end.

Definition getSelectionPos (rl : Instance) : option (Z * Z * Z) :=
  let '(bpos, epos) :=
    if mark rl <? pos rl then (mark rl, pos rl + 1) else (pos rl, mark rl) in
  match
    (if visualLine rl
     then match slice_from (line rl) epos with
          | None => None
          | Some rest => Some (0, visualLine_loop rest 0 epos)
          end
     else Some (bpos, epos))
  with
  | None => None
  | Some (bpos, epos) =>
      let epos := if epos >? len (line rl) - 1 then len (line rl) else epos in
      let bpos := if bpos <? 0 then 0 else bpos in
      Some (bpos, epos, bpos)
  end.

(** ** selection.go : selection search helpers *)

(** [for ; bpos >= 0; bpos-- { if !match(rl.line[bpos]) { break } }] *)
Fixpoint selectInWord_back (cls : rune -> bool) (ln : list rune) (bpos : nat)
    : option Z :=
  match ln !! bpos with
  | None => None
  | Some c =>
      if cls c
      then match bpos with
           | O => Some (-1)
           | S bpos' => selectInWord_back cls ln bpos'
           end
      else Some (Z.of_nat bpos)
  end.

(** [for ; epos < len(rl.line); epos++ { if !match(rl.line[epos]) { break } }]
    over the runes from [epos] on. *)
Fixpoint selectInWord_fwd (cls : rune -> bool) (rest : list rune) (epos : Z) : Z :=
  match rest with
  | [] => epos
  | c :: rest' => if cls c then selectInWord_fwd cls rest' (epos + 1) else epos
  end.

Definition selectInWord (cpos : Z) (rl : Instance) : option (Z * Z) :=
  match index (line rl) cpos with
  | None => None
  | Some c =>
      let pattern := if word_class c then word_class else punct_class in
      match selectInWord_back pattern (line rl) (Z.to_nat cpos) with
      | None => None
      | Some bpos =>
          let epos :=
            selectInWord_fwd pattern (drop (Z.to_nat cpos) (line rl)) cpos in
          let bpos := bpos + 1 in
          let epos := if epos >? 0 then epos - 1 else epos in
          Some (bpos, epos)
      end
  end.

Definition searchSurround (h : Helpers) (r : rune) : M (Z * Z * rune * rune) :=
  posInit <- get pos ;;
  let '(bchar, echar) := matchSurround r in
  bpos <- get (fun rl => substrPos h rl bchar false) ;;
  epos <- get (fun rl => substrPos h rl echar true) ;;
  be <- (if bpos =? epos
         then
           modify (fun rl => set_pos (pos rl + 1) rl) ;;;
           epos <- get (fun rl => substrPos h rl echar true) ;;
           if epos =? -1
           then
             modify (fun rl => set_pos (pos rl - 1) rl) ;;;
             epos <- get (fun rl => substrPos h rl echar false) ;;
             if negb (epos =? -1) then ret (epos, bpos) else ret (bpos, epos)
           else ret (bpos, epos)
         else ret (bpos, epos)) ;;
  modify (set_pos posInit) ;;;
  ret (fst be, snd be, bchar, echar).

Definition adjustSurroundQuotes (dBpos dEpos sBpos sEpos : Z) : Z * Z :=
  if ((sBpos =? -1) || (sEpos =? -1)) && ((dBpos =? -1) || (dEpos =? -1))
  then (-1, -1)
  else
    let doubleFirstAndValid :=
      (dBpos <? sBpos) && (dBpos >=? 0) && (sBpos >=? 0) && (dEpos >? sEpos) in
    let singleFirstAndValid :=
      (sBpos <? dBpos) && (sBpos >=? 0) && (dBpos >=? 0) && (sEpos >? dEpos) in
    if ((sBpos =? -1) || (sEpos =? -1)) || doubleFirstAndValid
    then (dBpos, dEpos)
    else if ((dBpos =? -1) || (dEpos =? -1)) || singleFirstAndValid
    then (sBpos, sEpos)
    else (-1, -1).

(** ** Undo bookkeeping *)

(** Modelled from the spec: [undoHistoryAppend] is not among the verified
    files; section 4.5: it pushes a snapshot of the buffer and the cursor
    before the mutation. *)
Definition undoHistoryAppend : M unit :=
  modify (fun rl =>
    set_undo (undoHistory rl ++ [mkUndo (string_of_runes (line rl)) (pos rl)])
             false rl).

(** Modelled from the spec: [skipUndoAppend] is not among the verified
    files; section 4.5: the invocation declares that it contributes no undo
    boundary. *)
Definition skipUndoAppend : M unit :=
  modify (fun rl => set_undo (undoHistory rl) true rl).

(** ** Standard widgets *)

(** [byte(r)]: the low eight bits. *)
Definition byte_of (r : rune) : Z := Z.land r 255.

(** The loop of [selfInsert] that drops the zero runes at the end of the
    keys, as long as more than one rune is left. *)
Fixpoint strip_zeros (fuel : nat) (r : list rune) : list rune :=
  match fuel with
  | O => r
  | S fuel' =>
      if (len r >? 1) && (List.last r 1 =? 0)
      then strip_zeros fuel' (removelast r)
      else r
  end.

Definition selfInsert (h : Helpers) : M unit :=
  skipUndoAppend ;;;
  modify (removeSuffixInserted h) ;;;
  ks <- get keys ;;
  let r := runes_of_string ks in
  let r := strip_zeros (length r) r in
  let r :=
    match r with
    | [r0] =>
        if (charCtrlA h <? byte_of r0) && (byte_of r0 <? charCtrlUnderscore h)
        then [chr "^"; Z.lxor (byte_of r0) 0x40]
        else r
    | _ => r
    end in
  empty <- get (fun rl => len (line rl) =? 0) ;;
  middle <- get (fun rl => pos rl <? len (line rl)) ;;
  atEnd <- get (fun rl => pos rl =? len (line rl)) ;;
  (if empty : bool then modify (set_line r)
   else if middle : bool then
     rest <- try (fun rl => slice_from (line rl) (pos rl)) ;;
     let forwardLine := r ++ rest in
     before <- try (fun rl => slice_to (line rl) (pos rl)) ;;
     modify (set_line (before ++ forwardLine))
   else if atEnd : bool then modify (fun rl => set_line (line rl ++ r) rl)
   else ret tt) ;;;
  modify (fun rl => set_pos (pos rl + len r) rl).

Definition beginningOfLine : M unit :=
  skipUndoAppend ;;;
  modify (set_pos 0).

Definition endOfLine : M unit :=
  modify (fun rl => if len (line rl) >? 0 then set_pos (len (line rl)) rl else rl) ;;;
  skipUndoAppend.

Definition forwardChar : M unit :=
  skipUndoAppend ;;;
  modify (fun rl => if pos rl <? len (line rl) then set_pos (pos rl + 1) rl else rl).

Definition backwardChar : M unit :=
  skipUndoAppend ;;;
  modify (fun rl => if pos rl >? 0 then set_pos (pos rl - 1) rl else rl).

(** The loop of [switchKeyword] over the keyword switchers.  [bpos] and
    [epos] are assigned before the test on the cursor, so a switcher that
    changed a span away from the cursor leaves them moved for the next. *)
Fixpoint switchKeyword_loop (sws : list switcher) (selection : gostring)
    (increase : bool) (cpos bpos epos : Z) : M unit :=
  match sws with
  | [] => ret tt
  | sw :: rest =>
      let '(changed, word, obpos, oepos) := sw selection increase in
      if negb changed
      then switchKeyword_loop rest selection increase cpos bpos epos
      else
        let epos := bpos + oepos in
        let bpos := bpos + obpos in
        if (cpos <? bpos) || (cpos >=? epos)
        then switchKeyword_loop rest selection increase cpos bpos epos
        else
          begin <- try (fun rl => slice_to (line rl) bpos) ;;
          rest' <- try (fun rl => slice_from (line rl) epos) ;;
          let newLine :=
            runes_of_string (string_of_runes begin) ++ runes_of_string word
              ++ runes_of_string (string_of_runes rest') in
          modify (set_line newLine) ;;;
          modify (set_pos (bpos + len_string word - 1))
  end.

(** The text [switchKeyword] hands to the switchers, with the logical cursor
    and the bounds of the span: everything up to the loop. *)
Definition switchKeyword_selection (h : Helpers)
    : M (gostring * Z * Z * Z) :=
  cpos <- get pos ;;
  numeric <- get (fun rl =>
    match_pair is_sign is_digit (lineSlice h (line rl) (pos rl) 2)) ;;
  shortopt <- get (fun rl =>
    match_pair is_sign is_alpha (lineSlice h (line rl) (pos rl) 2)) ;;
  cpos <- (if numeric : bool then
             if cpos =? 0 then ret (cpos + 1)
             else
               c <- try (fun rl => index (line rl) (cpos - 1)) ;;
               if negb (is_digit c) then ret (cpos + 1) else ret cpos
           else if shortopt : bool then
             if cpos =? 0 then ret (cpos + 1)
             else
               c <- try (fun rl => index (line rl) (pos rl - 1)) ;;
               if c =? chr " " then ret (cpos + 1) else ret cpos
           else ret cpos) ;;
  be <- try (selectInWord cpos) ;;
  let bpos := fst be in
  let epos := snd be + 1 in
  bpos <- (if bpos =? 0 then ret bpos
           else
             c <- try (fun rl => index (line rl) (bpos - 1)) ;;
             if is_sign c then ret (bpos - 1) else ret bpos) ;;
  sel <- try (fun rl => slice (line rl) bpos epos) ;;
  ret (string_of_runes sel, cpos, bpos, epos).

Definition switchKeyword (h : Helpers) : M unit :=
  undoHistoryAppend ;;;
  increase <- get (fun rl => string_eqb (keys rl) [charCtrlA h]) ;;
  sel <- switchKeyword_selection h ;;
  let '(selection, cpos, bpos, epos) := sel in
  switchKeyword_loop (keywordSwitchers h) selection increase cpos bpos epos.

(** ** history.go *)

(** [MemoryHistory]: [GetLine] indexes the items without a check. *)
Definition MemoryHistory (items : list gostring) : History :=
  mkHistory
    (fun i => match index items i with
              | Some s => Some (s, None)
              | None => None
              end)
    (len items).

Definition NullHistory : History := mkHistory (fun _ => Some ([], None)) 0.

(** [fileHistory], as far as reading goes: the list read from the file. *)
Definition fileHistory (list : list gostring) : History :=
  mkHistory
    (fun i =>
       if i <? 0
       then Some ([], Some "cannot use a negative index when requesting historic commands"%string)
       else match index list i with
            | Some s => Some (s, None)
            | None => Some ([], Some "index requested greater than number of items in history"%string)
            end)
    (len list).

(** [currentHistory]: [Some None] is the [nil] history, [None] the panic of
    [rl.historyNames[rl.historySourcePos]]. *)
Definition currentHistory (rl : Instance) : option (option History) :=
  if Z.of_nat (size (histories rl)) =? 0 then Some None
  else
    match index (historyNames rl) (historySourcePos rl) with
    | None => None
    | Some name => Some (histories rl !! name)
    end.

Definition crlf : string :=
  String (ascii_of_nat 13) (String (ascii_of_nat 10) EmptyString).

Definition walkHistory (h : Helpers) (delta : Z) : M unit :=
  modify (fun rl => set_hist (histPos rl) (lineBuf rl) 0 rl) ;;;
  history <- try currentHistory ;;
  match history with
  | None => ret tt
  | Some history =>
      if Len history =? 0 then ret tt
      else
        modify (fun rl =>
          if (histPos rl =? 0) && (histPos rl + delta =? 1)
          then set_hist (histPos rl) (string_of_runes (line rl))
                 (historySourcePos rl) rl
          else rl) ;;;
        modify (fun rl =>
          set_hist (histPos rl + delta) (lineBuf rl) (historySourcePos rl) rl) ;;;
        modify (fun rl =>
          if histPos rl >? Len history
          then set_hist (Len history) (lineBuf rl) (historySourcePos rl) rl
          else if histPos rl <? 0
          then set_hist 0 (lineBuf rl) (historySourcePos rl) rl
          else if histPos rl =? 0
          then set_pos (len_string (lineBuf rl))
                 (set_line (runes_of_string (lineBuf rl)) rl)
          else rl) ;;;
        hp <- get histPos ;;
        if hp >? 0 then
          res <- try (fun _ => GetLine history (Len history - hp)) ;;
          match snd res with
          | Some err =>
              modify (resetHelpers h) ;;;
              modify (print (String.append crlf (String.append err crlf))) ;;;
              primary <- get prompt ;;
              modify (print primary)
          | None =>
              modify (clearLine h) ;;;
              modify (set_line (runes_of_string (fst res))) ;;;
              modify (fun rl => set_pos (len (line rl)) rl)
          end
        else ret tt
  end.

(** ** vim-utils.go : iterations

    The numeric argument lives in three fields of the Go [Instance]
    ([iterations], [negativeArg] and the main keymap [main]) that no other
    verified method reads or writes; they are kept in a record of their own. *)

Record Iterations := mkIterations {
  iterations : gostring;
  negativeArg : bool;
  mainIsEmacs : bool        (* [rl.main == emacs] *)
}.

Definition maxInt : Z := 9223372036854775807.
Definition minInt : Z := -9223372036854775808.

Definition maxUint64 : Z := 18446744073709551615.

(** The answers of [strconv.ParseUint] in base 10: a syntax error, a range
    error, or the value. *)
Inductive parsed := Syntax | Range | Value (n : Z).

(** The loop of [strconv.ParseUint] over the bytes, in base 10: it stops with
    a syntax error at the first byte that is not a digit, and with a range
    error as soon as the value no longer fits 64 bits, whatever follows. *)
Fixpoint ParseUint (n : Z) (s : gostring) : parsed :=
  match s with
  | [] => Value n
  | c :: rest =>
      if is_digit c then
        let n1 := n * 10 + (c - chr "0") in
        if n1 >? maxUint64 then Range else ParseUint n1 rest
      else Syntax
  end.

(** [strconv.Atoi] on a 64-bit platform: the value and whether the error is
    not [nil].  A syntax error gives 0; a value outside [int] gives the
    nearest bound and a range error. *)
Definition Atoi (s : gostring) : Z * bool :=
  match s with
  | [] => (0, true)
  | c :: rest =>
      let neg := c =? chr "-" in
      let body := if (c =? chr "-") || (c =? chr "+") then rest else s in
      match body with
      | [] => (0, true)
      | _ =>
          match ParseUint 0 body with
          | Syntax => (0, true)
          | Range => (if neg then minInt else maxInt, true)
          | Value un =>
              if negb neg && (un >=? 2 ^ 63) then (maxInt, true)
              else if neg && (un >? 2 ^ 63) then (minInt, true)
              else (if neg then - un else un, false)
          end
      end
  end.

Definition addIteration (i : gostring) (a : Iterations) : Iterations :=
  let a := if string_eqb i [] then mkIterations [] (negativeArg a) (mainIsEmacs a)
           else a in
  let '(a, i) :=
    if negativeArg a
    then (mkIterations [] (negativeArg a) (mainIsEmacs a), chr "-" :: i)
    else (a, i) in
  mkIterations (iterations a ++ i) false (mainIsEmacs a).

Definition getIterations (a : Iterations) : Z * Iterations :=
  let '(i, err) := Atoi (iterations a) in
  let i :=
    if (negb (mainIsEmacs a) && (i <=? 0)) || (mainIsEmacs a && err)
    then 1 else i in
  (i, mkIterations [] (negativeArg a) (mainIsEmacs a)).

(** [negArgument] of the widget file. *)
Definition negArgument (a : Iterations) : Iterations :=
  mkIterations (iterations a) true (mainIsEmacs a).

(** ** vim-utils.go : the other matchers *)

Definition isBracket (r : rune) : bool :=
  (r =? chr "(") || (r =? chr ")") || (r =? chr "{") || (r =? chr "}")
  || (r =? chr "[") || (r =? chr "]").

Definition matches (r e : rune) : bool :=
  if r =? chr "{" then e =? chr "}"
  else if r =? chr "(" then e =? chr ")"
  else if r =? chr "[" then e =? chr "]"
  else if r =? chr "<" then e =? chr ">"
  else if r =? 34 then e =? 34
  else if r =? chr "'" then e =? chr "'"
  else e =? r.

(** ** vim-utils.go : deletion by a motion *)

(** [moveCursorByAdjust] and [saveBufToRegister] are defined outside the
    verified files; they are parameters. *)
Record Collaborators := mkCollaborators {
  moveCursorByAdjust : Z -> Instance -> Instance;
  saveBufToRegister : list rune -> Instance -> Instance
}.

Definition viDeleteByAdjust (c : Collaborators) (adjust : Z) : M unit :=
  empty <- get (fun rl => len (line rl) =? 0) ;;
  if empty : bool then ret tt
  else if adjust =? 0 then skipUndoAppend
  else
    toEnd <- get (fun rl => pos rl + adjust >=? len (line rl) - 1) ;;
    toStart <- get (fun rl => pos rl + adjust =? 0) ;;
    newLine <-
      (if toEnd : bool then try (fun rl => slice_to (line rl) (pos rl - 1))
       else if toStart : bool then try (fun rl => slice_from (line rl) (pos rl))
       else if adjust <? 0 then
         before <- try (fun rl => slice_to (line rl) (pos rl + adjust)) ;;
         rest <- try (fun rl => slice_from (line rl) (pos rl)) ;;
         ret (before ++ rest)
       else
         before <- try (fun rl => slice_to (line rl) (pos rl)) ;;
         rest <- try (fun rl => slice_from (line rl) (pos rl + adjust)) ;;
         ret (before ++ rest)) ;;
    modify (set_line newLine) ;;;
    if adjust <? 0 then modify (moveCursorByAdjust c adjust) else ret tt.

(** ** selection.go : the other selection helpers *)

Definition popSelection : M (gostring * Z * Z * Z) :=
  sel <- try getSelectionPos ;;
  let '(bpos, epos, cpos) := sel in
  s <- try (fun rl => slice (line rl) bpos epos) ;;
  resetSelection ;;;
  ret (string_of_runes s, bpos, epos, cpos).

Definition insertBlock (bpos epos : Z) (word surround : gostring) : M unit :=
  let word := if negb (string_eqb surround []) then surround ++ word ++ surround
              else word in
  begin <- try (fun rl => slice_to (line rl) bpos) ;;
  rest <- try (fun rl => slice_from (line rl) epos) ;;
  let newLine := runes_of_string (string_of_runes begin) ++ runes_of_string word in
  let newLine := newLine ++ runes_of_string (string_of_runes rest) in
  modify (set_line newLine).

Definition insertSelection (surround : gostring) : M (Z * Z) :=
  sel <- try getSelectionPos ;;
  let '(bpos, epos, cpos) := sel in
  s <- try (fun rl => slice (line rl) bpos epos) ;;
  let selection := string_of_runes s in
  let selection :=
    if negb (string_eqb surround []) then surround ++ selection ++ surround
    else selection in
  begin <- try (fun rl => slice_to (line rl) bpos) ;;
  rest <- try (fun rl => slice_from (line rl) epos) ;;
  let newLine := runes_of_string (string_of_runes begin) ++ runes_of_string selection in
  let newLine := newLine ++ runes_of_string (string_of_runes rest) in
  modify (set_line newLine) ;;;
  resetSelection ;;;
  ret (len_string selection, cpos).

Definition deleteSelection (c : Collaborators) : M unit :=
  sel <- try getSelectionPos ;;
  let '(bpos, epos, cpos) := sel in
  s <- try (fun rl => slice (line rl) bpos epos) ;;
  let selection := string_of_runes s in
  modify (saveBufToRegister c (runes_of_string selection)) ;;;
  before <- try (fun rl => slice_to (line rl) bpos) ;;
  rest <- try (fun rl => slice_from (line rl) epos) ;;
  modify (set_line (before ++ rest)) ;;;
  modify (set_pos cpos) ;;;
  resetSelection.

(** ** Standard widgets : regions, quoting, transposition *)

Definition killRegion (c : Collaborators) : M unit :=
  undoHistoryAppend ;;;
  deleteSelection c.

Definition quoteRegion : M unit :=
  undoHistoryAppend ;;;
  res <- insertSelection [chr "'"] ;;
  modify (set_pos (snd res + 1)).

(** The loop of [quoteLine] over the runes of the line: it stops at the
    first newline and writes a backslash before every quote. *)
Fixpoint quoteLine_loop (ln : list rune) : list rune :=
  match ln with
  | [] => []
  | r :: rest =>
      if r =? 10 then []
      else if r =? chr "'" then chr "\" :: chr "'" :: quoteLine_loop rest
      else r :: quoteLine_loop rest
  end.

Definition quoteLine : M unit :=
  modify (fun rl => set_line (chr "'" :: quoteLine_loop (line rl) ++ [chr "'"]) rl).

(** [l[i] = x]: [None] is the index-out-of-range panic. *)
Definition store {A} (l : list A) (i : Z) (x : A) : option (list A) :=
  if (0 <=? i) && (i <? len l) then Some (<[Z.to_nat i := x]> l) else None.

Definition transposeChars : M unit :=
  short <- get (fun rl => (pos rl <? 2) || (len (line rl) <? 2)) ;;
  if short : bool then skipUndoAppend
  else
    atEnd <- get (fun rl => pos rl =? len (line rl)) ;;
    p <- get pos ;;
    if atEnd : bool then
      last <- try (fun rl => index (line rl) (p - 1)) ;;
      blast <- try (fun rl => index (line rl) (p - 2)) ;;
      l1 <- try (fun rl => store (line rl) (p - 2) last) ;;
      modify (set_line l1) ;;;
      l2 <- try (fun rl => store (line rl) (p - 1) blast) ;;
      modify (set_line l2)
    else
      last <- try (fun rl => index (line rl) p) ;;
      blast <- try (fun rl => index (line rl) (p - 1)) ;;
      l1 <- try (fun rl => store (line rl) (p - 1) last) ;;
      modify (set_line l1) ;;;
      l2 <- try (fun rl => store (line rl) p blast) ;;
      modify (set_line l2).

(** [setMarkCommand] and [exchangePointAndMark] work on the session and on
    the numeric argument. *)
Definition setMarkCommand (rl : Instance) (a : Iterations) : Instance * Iterations :=
  let rl := final (skipUndoAppend rl) in
  let '(vii, a) := getIterations a in
  if vii <? 0
  then (mkInstance (line rl) (pos rl) (-1) false false (keys rl)
          (register rl) (undoHistory rl) (undoSkipAppend rl) (histPos rl)
          (lineBuf rl) (historySourcePos rl) (historyNames rl) (histories rl)
          (prompt rl) (printed rl) (redisplays rl), a)
  else (set_mark (pos rl) (activeRegion rl) rl, a).

Definition exchangePointAndMark (rl : Instance) (a : Iterations)
    : Instance * Iterations :=
  let rl := final (skipUndoAppend rl) in
  let '(vii, a) := getIterations a in
  if mark rl =? -1 then (rl, a)
  else if vii <? 0
  then (set_mark (pos rl) (activeRegion rl) (set_pos (mark rl) rl), a)
  else if vii >? 0
  then (set_mark (pos rl) true (set_pos (mark rl) rl), a)
  else (set_mark (mark rl) true rl, a).

(** ** history.go : sources and writing *)

Definition set_sources (names : list string) (hs : gmap string History)
    (rl : Instance) : Instance :=
  mkInstance (line rl) (pos rl) (mark rl) (activeRegion rl) (visualLine rl)
    (keys rl) (register rl) (undoHistory rl) (undoSkipAppend rl) (histPos rl)
    (lineBuf rl) (historySourcePos rl) names hs
    (prompt rl) (printed rl) (redisplays rl).

(** [AddHistorySource].  [rl.histories] is a map that was made, as the
    constructor of the session and [DeleteHistorySource] leave it: Go panics
    on an assignment to a [nil] map, which a [gmap] does not have. *)
Definition AddHistorySource (name : string) (history : History) : M unit :=
  single <- get (fun rl => Z.of_nat (size (histories rl)) =? 1) ;;
  default <-
    (if single : bool then
       first <- try (fun rl => index (historyNames rl) 0) ;;
       ret (String.eqb first "local history")
     else ret false) ;;
  (if default : bool then
     modify (fun rl => set_sources [] (delete "local history"%string (histories rl)) rl)
   else ret tt) ;;;
  modify (fun rl => set_sources (historyNames rl ++ [name]) (histories rl) rl) ;;;
  modify (fun rl => set_sources (historyNames rl) (<[name := history]> (histories rl)) rl).

(** [initHistory]; [inferLine] is a field of the Go [Instance] that no other
    verified method uses: it is an argument. *)
Definition initHistory (inferLine : bool) : M unit :=
  modify (fun rl => set_hist (histPos rl) (lineBuf rl) 0 rl) ;;;
  modify (fun rl => set_undo [mkUndo [] 0] (undoSkipAppend rl) rl) ;;;
  if inferLine then ret tt
  else modify (fun rl => set_hist 0 (lineBuf rl) (historySourcePos rl) rl).

(** The inner loop of [DeleteHistorySource]: the first entry equal to [name]
    is cut out of the names. *)
Fixpoint remove_name (name : string) (names : list string) : list string :=
  match names with
  | [] => []
  | hname :: rest =>
      if String.eqb hname name then rest else hname :: remove_name name rest
  end.

Fixpoint DeleteHistorySource_loop (sources : list string) : M unit :=
  match sources with
  | [] => ret tt
  | name :: rest =>
      modify (fun rl => set_sources (historyNames rl) (delete name (histories rl)) rl) ;;;
      modify (fun rl => set_sources (remove_name name (historyNames rl)) (histories rl) rl) ;;;
      DeleteHistorySource_loop rest
  end.

(** [DeleteHistorySource]; the deferred [initHistory] runs last. *)
Definition DeleteHistorySource (inferLine : bool) (sources : list string) : M unit :=
  (if len sources =? 0 then modify (set_sources [] ∅)
   else DeleteHistorySource_loop sources) ;;;
  initHistory inferLine.

Definition nextHistorySource : M unit :=
  modify (fun rl => set_hist (histPos rl) (lineBuf rl) (historySourcePos rl + 1) rl) ;;;
  modify (fun rl =>
    if historySourcePos rl =? len (historyNames rl)
    then set_hist (histPos rl) (lineBuf rl) 0 rl else rl).

Definition prevHistorySource : M unit :=
  modify (fun rl => set_hist (histPos rl) (lineBuf rl) (historySourcePos rl - 1) rl) ;;;
  modify (fun rl =>
    if historySourcePos rl <? 0
    then set_hist (histPos rl) (lineBuf rl) (len (historyNames rl) - 1) rl else rl).

(** [MemoryHistory.Write]: the new items and the pair (count, error). *)
Definition MemoryHistory_Write (items : list gostring) (s : gostring)
    : list gostring * (Z * option string) :=
  let items := items ++ [s] in
  (items, (len items, None)).

(** [unicode.IsSpace] *)
Definition is_space (r : rune) : bool :=
  ((9 <=? r) && (r <=? 13)) || (r =? 32) || (r =? 0x85) || (r =? 0xA0)
  || (r =? 0x1680) || ((0x2000 <=? r) && (r <=? 0x200a))
  || (r =? 0x2028) || (r =? 0x2029) || (r =? 0x202f) || (r =? 0x205f)
  || (r =? 0x3000).

Fixpoint trim_left (s : gostring) : gostring :=
  match s with
  | [] => []
  | r :: rest => if is_space r then trim_left rest else s
  end.

(** [strings.TrimSpace] *)
Definition TrimSpace (s : gostring) : gostring :=
  reverse (trim_left (reverse (trim_left s))).

(** [fileHistory.Write] on the list of the history.  The file is outside the
    embedding: [openErr] and [writeErr] are the errors of [os.OpenFile] and
    of [f.WriteString]; the third component is the text appended to the
    file, if it was opened. *)
Definition fileHistory_Write (entries : list gostring) (s : gostring)
    (openErr writeErr : option string)
    : list gostring * (Z * option string) * option gostring :=
  let block := TrimSpace s in
  let entries :=
    if (len entries =? 0) || negb (string_eqb (List.last entries []) block)
    then entries ++ [block] else entries in
  match openErr with
  | Some err => (entries, (0, Some err), None)
  | None => (entries, (len entries, writeErr), Some (block ++ [10]))
  end.

(** ** hint.go : wrapping *)

(** [strings.Fields]: the maximal runs of runes that are not white space;
    [cur] is the run being read. *)
Fixpoint Fields_loop (s : gostring) (cur : gostring) : list gostring :=
  match s with
  | [] => match cur with [] => [] | _ => [cur] end
  | r :: rest =>
      if is_space r
      then match cur with
           | [] => Fields_loop rest []
           | _ => cur :: Fields_loop rest []
           end
      else Fields_loop rest (cur ++ [r])
  end.

Definition Fields (s : gostring) : list gostring := Fields_loop s [].

(** The loop of [wrapText] over [words[1:]].  [strip] is [ansi.Strip] of the
    package github.com/acarl005/stripansi, a parameter. *)
Fixpoint wrapText_loop (strip : gostring -> gostring) (lineWidth : Z)
    (words : list gostring) (wrapped : gostring) (spaceLeft lines : Z)
    : gostring * Z :=
  match words with
  | [] => (wrapped, lines)
  | word :: rest =>
      if len_string (strip word) + 1 >? spaceLeft
      then wrapText_loop strip lineWidth rest (wrapped ++ [10] ++ word)
             (lineWidth - len_string word) (lines + 1)
      else wrapText_loop strip lineWidth rest (wrapped ++ [32] ++ word)
             (spaceLeft - (1 + len_string word)) lines
  end.

Definition wrapText (strip : gostring -> gostring) (text : gostring)
    (lineWidth : Z) : gostring * Z :=
  match Fields text with
  | [] => ([], 0)
  | first :: rest =>
      let wrapped := first in
      let spaceLeft := lineWidth - len_string wrapped in
      let lines := if negb (string_eqb text []) then 1 else 0 in
      wrapText_loop strip lineWidth rest wrapped spaceLeft lines
  end.

(** ** Concrete sessions used in the examples *)

(** A session editing [ln] with the cursor at [p]: no mark, the undo stack
    of [initHistory], the in-memory history bound by default. *)
Definition session (ln : list rune) (p : Z) : Instance :=
  mkInstance ln p (-1) false false [] [] [mkUndo [] 0] false 0 [] 0
    ["local history"%string]
    {[ "local history"%string := MemoryHistory [] ]} ">"%string [] 0.

(** The same session in visual-line mode with the mark at [m]. *)
Definition visual_session (ln : list rune) (p m : Z) : Instance :=
  mkInstance ln p m true true [] [] [mkUndo [] 0] false 0 [] 0
    ["local history"%string]
    {[ "local history"%string := MemoryHistory [] ]} ">"%string [] 0.

(** A history backend whose [GetLine] always fails, as a database-backed
    implementation of the [History] interface might. *)
Definition failingHistory (n : Z) (msg : string) : History :=
  mkHistory (fun _ => Some ([], Some msg)) n.

Definition history_session (ln : list rune) (p : Z) (hist : History) : Instance :=
  mkInstance ln p (-1) false false [] [] [mkUndo [] 0] false 0 [] 0
    ["db"%string] {[ "db"%string := hist ]} ">"%string [] 0.

(** A keyword switcher that increments a one-digit number below 9. *)
Definition digitSwitcher : switcher := fun selection increase =>
  match selection with
  | [d] =>
      if is_digit d && (d <? chr "9") && increase
      then (true, [d + 1], 0, 1)
      else (false, [], 0, 0)
  | _ => (false, [], 0, 0)
  end.

(** Stand-ins for the parts of the package outside the verified files. *)
Definition plainHelpers : Helpers :=
  mkHelpers
    (fun _ _ => ([], 0, 0))
    (fun _ _ _ => -1)
    (fun ln p n => take (Z.to_nat n) (drop (Z.to_nat p) ln))
    [digitSwitcher]
    (fun rl => rl)
    (fun rl => rl)
    (fun rl => set_pos 0 (set_line [] rl))
    1 31.

(** ** Vocabulary of the statements *)

(** A search found its pair when both positions differ from -1. *)
Definition found (bpos epos : Z) : Prop := bpos <> -1 /\ epos <> -1.

(** The value a method returns, if it returns. *)
Definition value {A} (r : result A) : option A :=
  match r with Done a _ => Some a | Fault _ => None end.

(** No keyword switcher reports a change for the text [switchKeyword]
    selects at the cursor. *)
Definition no_strategy_applies (h : Helpers) (rl : Instance) : Prop :=
  forall selection cpos bpos epos increase,
    value (switchKeyword_selection h rl) = Some (selection, cpos, bpos, epos) ->
    Forall (fun sw : switcher => fst (fst (fst (sw selection increase))) = false)
           (keywordSwitchers h).

(** A method that only reads the line and the cursor: it ends in the state
    it started in, and its value depends on these two fields alone. *)
Definition text_reader {A} (m : M A) : Prop :=
  (forall rl, final (m rl) = rl) /\
  (forall rl1 rl2, line rl1 = line rl2 -> pos rl1 = pos rl2 ->
                   value (m rl1) = value (m rl2)).

(** The history index a walk of [delta] steps arrives at: [rl.histPos + delta]
    kept between 0 and the length of the history. *)
Definition walk_position (history : History) (rl : Instance) (delta : Z) : Z :=
  let hp := histPos rl + delta in
  if hp >? Len history then Len history
  else if hp <? 0 then 0
  else hp.

(** [old] occurs in [s] after the prefix [a], and nowhere earlier. *)
Definition first_occurrence (s old a b : gostring) : Prop :=
  s = a ++ old ++ b /\
  forall a' b', s = a' ++ old ++ b' -> (length a <= length a')%nat.

(** A line of single-byte code points. *)
Definition ascii_line (ln : list rune) : Prop :=
  Forall (fun r => 0 <= r < 128) ln.

(** The contract of a tokeniser in section 4.1 of the specification, for
    its answer on one line and cursor: the tokens partition the buffer; the
    empty buffer has no token and the answer 0, 0; otherwise the answer names
    the token that contains the cursor and the offset of the cursor in it,
    which is the length of the token only in the last token (the cursor at
    the end of the buffer). *)
Definition tokenised (ln : list rune) (p : Z)
    (answer : list gostring * Z * Z) : Prop :=
  let '(split, idx, off) := answer in
  concat split = ln /\
  (split = [] -> idx = 0 /\ off = 0) /\
  (split <> [] ->
   exists tok,
     index split idx = Some tok /\
     len (concat (take (Z.to_nat idx) split)) + off = p /\
     0 <= off <= len tok /\
     (idx < len split - 1 -> off < len tok)).

(** A motion returns an offset that keeps the cursor inside the buffer. *)
Definition lands_in_buffer (rl : Instance) (motion : option Z) : Prop :=
  exists d, motion = Some d /\ 0 <= pos rl + d <= len (line rl).

(** The number a string of decimal digits denotes, digit by digit with its
    weight. *)
Fixpoint decimal (ds : gostring) : Z :=
  match ds with
  | [] => 0
  | d :: rest => (d - chr "0") * 10 ^ len rest + decimal rest
  end.

(** The digit keys [ds] typed one after the other ([digitArgument] hands each
    to [addIteration]). *)
Definition typed_digits (ds : gostring) (a : Iterations) : Iterations :=
  fold_left (fun a d => addIteration [d] a) ds a.

(** A line all of whose code points UTF-8 can encode: the conversion to a
    string and back leaves it as it is. *)
Definition valid_line (ln : list rune) : Prop :=
  Forall (fun r => valid_rune r = true) ln.

(** The line with the runes at the indices [k - 1] and [k] exchanged. *)
Definition swap_adjacent (l : list rune) (k : nat) : list rune :=
  match l !! (k - 1)%nat, l !! k with
  | Some x, Some y => <[k := x]> (<[(k - 1)%nat := y]> l)
  | _, _ => l
  end.

(** The index of the second of the two runes [transposeChars] exchanges. *)
Definition transposed_index (rl : Instance) : Z :=
  if pos rl =? len (line rl) then pos rl - 1 else pos rl.

(** The text of a line up to its first newline. *)
Fixpoint before_newline (ln : list rune) : list rune :=
  match ln with
  | [] => []
  | r :: rest => if r =? 10 then [] else r :: before_newline rest
  end.

(** The inverse of the escaping of [quoteLine]: a backslash followed by a
    quote stands for the quote. *)
Fixpoint unescape (s : list rune) : list rune :=
  match s with
  | [] => []
  | c :: rest =>
      match rest with
      | q :: rest' =>
          if (c =? chr "\") && (q =? chr "'") then q :: unescape rest'
          else c :: unescape rest
      | [] => [c]
      end
  end.

(** The state a walk of [delta] steps reaches before it asks the history for
    a line: the line buffer saved when the walk leaves the line being typed,
    the history index moved and kept between 0 and the length of the
    history, the saved line put back when the index is 0. *)
Definition walk_reached (history : History) (delta : Z) (rl : Instance) : Instance :=
  let rl0 := set_hist (histPos rl) (lineBuf rl) 0 rl in
  let rl1 :=
    if (histPos rl0 =? 0) && (histPos rl0 + delta =? 1)
    then set_hist (histPos rl0) (string_of_runes (line rl0)) (historySourcePos rl0) rl0
    else rl0 in
  let rl2 := set_hist (histPos rl1 + delta) (lineBuf rl1) (historySourcePos rl1) rl1 in
  if histPos rl2 >? Len history
  then set_hist (Len history) (lineBuf rl2) (historySourcePos rl2) rl2
  else if histPos rl2 <? 0
  then set_hist 0 (lineBuf rl2) (historySourcePos rl2) rl2
  else if histPos rl2 =? 0
  then set_pos (len_string (lineBuf rl2)) (set_line (runes_of_string (lineBuf rl2)) rl2)
  else rl2.

(** [clearLine] and [resetHelpers] leave the history state alone. *)
Definition keeps_history (f : Instance -> Instance) : Prop :=
  forall rl, histPos (f rl) = histPos rl /\ lineBuf (f rl) = lineBuf rl /\
             historyNames (f rl) = historyNames rl /\
             histories (f rl) = histories rl.

(** No entry of the list is equal to the entry after it. *)
Definition no_repeat (l : list gostring) : Prop :=
  forall (i : nat) x y, l !! i = Some x -> l !! S i = Some y -> x <> y.

(** The number of newlines of a text. *)
Definition count_newlines (s : gostring) : Z :=
  len (filter (fun r => r = 10) s).

(** * Properties *)

(** ** Lengths, indexing and slicing *)

Lemma len_nonneg {A} (l : list A) : 0 <= len l.
Proof. unfold len. lia. Qed.

Lemma len_app {A} (l k : list A) : len (l ++ k) = len l + len k.
Proof. unfold len. rewrite length_app. lia. Qed.

Lemma len_cons {A} (a : A) (l : list A) : len (a :: l) = 1 + len l.
Proof. unfold len. simpl. lia. Qed.

Lemma index_Some {A} (l : list A) i a :
  index l i = Some a -> 0 <= i < len l.
Proof.
  unfold index, len. destruct (Z.leb_spec 0 i); [|discriminate].
  intros Hl. apply lookup_lt_Some in Hl. lia.
Qed.

Lemma index_in_range {A} (l : list A) i :
  0 <= i < len l -> exists a, index l i = Some a.
Proof.
  unfold index, len. intros Hi.
  destruct (Z.leb_spec 0 i); [|lia].
  destruct (lookup_lt_is_Some_2 l (Z.to_nat i)) as [a Ha]; [lia|].
  eauto.
Qed.

Lemma index_out_of_range {A} (l : list A) i :
  len l <= i -> index l i = None.
Proof.
  unfold index, len. intros Hi. destruct (Z.leb_spec 0 i); [|done].
  apply lookup_ge_None. lia.
Qed.

Lemma slice_Some {A} (l k : list A) lo hi :
  slice l lo hi = Some k -> 0 <= lo <= hi /\ hi <= len l /\ len k = hi - lo.
Proof.
  unfold slice, len.
  destruct (Z.leb_spec 0 lo), (Z.leb_spec lo hi),
    (Z.leb_spec hi (Z.of_nat (length l))); simpl; try discriminate.
  intros [= <-]. rewrite length_take, length_drop. lia.
Qed.

Lemma slice_backwards {A} (l : list A) lo hi : hi < lo -> slice l lo hi = None.
Proof.
  unfold slice. intros H.
  destruct (Z.leb_spec lo hi); [lia|]. by rewrite andb_false_r.
Qed.

(** ** The cursor invariant (C1) *)

Lemma forwardChar_cursor_ok rl :
  cursor_ok rl ->
  faulted (forwardChar rl) = false /\ cursor_ok (final (forwardChar rl)).
Proof.
  unfold cursor_ok, forwardChar, bind, skipUndoAppend, modify. simpl.
  intros H. split; [done|].
  destruct (Z.ltb_spec (pos rl) (len (line rl))); simpl; lia.
Qed.

Lemma backwardChar_cursor_ok rl :
  cursor_ok rl ->
  faulted (backwardChar rl) = false /\ cursor_ok (final (backwardChar rl)).
Proof.
  unfold cursor_ok, backwardChar, bind, skipUndoAppend, modify. simpl.
  intros H. split; [done|].
  destruct (Z.gtb_spec (pos rl) 0); simpl; lia.
Qed.

Lemma beginningOfLine_cursor_ok rl :
  cursor_ok (final (beginningOfLine rl)).
Proof.
  unfold cursor_ok, beginningOfLine, bind, skipUndoAppend, modify. simpl.
  pose proof (len_nonneg (line rl)). lia.
Qed.

Lemma endOfLine_cursor_ok rl :
  cursor_ok rl -> cursor_ok (final (endOfLine rl)).
Proof.
  unfold cursor_ok, endOfLine, bind, skipUndoAppend, modify. simpl.
  destruct (Z.gtb_spec (len (line rl)) 0); simpl; lia.
Qed.

(** [selfInsert] keeps the invariant, provided [removeSuffixInserted] (which
    may drop the last rune of the line) does. *)
Lemma selfInsert_cursor_ok h rl :
  (forall rl0, cursor_ok rl0 -> cursor_ok (removeSuffixInserted h rl0)) ->
  cursor_ok rl ->
  faulted (selfInsert h rl) = false /\ cursor_ok (final (selfInsert h rl)).
Proof.
  intros Hsuffix Hok.
  unfold selfInsert, bind, skipUndoAppend, modify, get, try, ret.
  set (rl1 := removeSuffixInserted h _).
  assert (Hok1 : cursor_ok rl1).
  { apply Hsuffix. exact Hok. }
  unfold cursor_ok in Hok1.
  set (r := match strip_zeros _ _ with [r0] => _ | _ => _ end).
  pose proof (len_nonneg r) as Hr.
  destruct (Z.eqb_spec (len (line rl1)) 0) as [Hempty|Hnonempty].
  - unfold cursor_ok. simpl. split; [done|]. lia.
  - destruct (Z.ltb_spec (pos rl1) (len (line rl1))) as [Hmid|Hend].
    + destruct (slice_from (line rl1) (pos rl1)) as [rest|] eqn:Hrest.
      2:{ unfold slice_from, slice in Hrest.
          destruct (Z.leb_spec 0 (pos rl1)), (Z.leb_spec (pos rl1) (len (line rl1))),
            (Z.leb_spec (len (line rl1)) (len (line rl1))); simpl in Hrest;
            try discriminate; lia. }
      destruct (slice_to (line rl1) (pos rl1)) as [before|] eqn:Hbefore.
      2:{ unfold slice_to, slice in Hbefore.
          destruct (Z.leb_spec 0 0), (Z.leb_spec 0 (pos rl1)),
            (Z.leb_spec (pos rl1) (len (line rl1))); simpl in Hbefore;
            try discriminate; lia. }
      apply slice_Some in Hrest, Hbefore.
      unfold cursor_ok. simpl. split; [done|].
      rewrite !len_app. lia.
    + destruct (Z.eqb_spec (pos rl1) (len (line rl1))) as [Heq|Hne]; [|lia].
      unfold cursor_ok. simpl. split; [done|].
      rewrite len_app. lia.
Qed.

(** When [vimDeleteToken] leaves at least one rune in the line, or removes
    nothing, the invariant survives. *)
Lemma vimDeleteToken_cursor_ok_nonempty r rl :
  cursor_ok rl ->
  line (final (vimDeleteToken r rl)) <> [] ->
  cursor_ok (final (vimDeleteToken r rl)).
Proof.
  unfold cursor_ok, vimDeleteToken, bind, modify, get, try, ret.
  intros Hok.
  destruct (_ >? _); [simpl; intros; lia|].
  destruct (index _ _) as [tok|]; [|simpl; intros; lia].
  destruct (string_eqb _ _); [simpl; intros; lia|].
  simpl.
  set (newLine := runes_of_string _).
  destruct (Z.gtb_spec (pos rl) (len newLine)); simpl; intros Hne.
  - assert (0 < len newLine); [|lia].
    unfold len. destruct newLine; [done|simpl; lia].
  - lia.
Qed.

(** C1, the failing case.  With the cursor after the only token of the line
    (the scenario of section 8 of the specification: buffer ["x"], cursor 1),
    [vimDeleteToken('1')] empties the line and then repairs the cursor with
    [rl.pos = len(rl.line) - 1], which is -1: the repair that is meant to
    bring the cursor back inside the line takes it below 0. *)
Theorem vimDeleteToken_cursor_below_zero :
  let rl := session (str "x") 1 in
  cursor_ok rl /\
  exists rl',
    vimDeleteToken (chr "1") rl = Done true rl' /\
    line rl' = [] /\ pos rl' = -1 /\ ~ cursor_ok rl'.
Proof.
  simpl. split.
  - unfold cursor_ok. simpl. unfold len. simpl. lia.
  - eexists. split; [vm_compute; reflexivity|].
    split; [reflexivity|]. split; [reflexivity|].
    unfold cursor_ok. simpl. lia.
Qed.

(** The same with the cursor on the last rune of a longer token, the place a
    Vi command-mode cursor rests at. *)
Example command_mode_cursor_after_vimDeleteToken :
  pos (final (vimDeleteToken (chr "1") (session (str "xy") 1))) = -1.
Proof. vm_compute. reflexivity. Qed.

(** ** The selection region (C3) *)

Lemma visualLine_loop_ge rest : forall i epos,
  0 <= i -> epos <= visualLine_loop rest i epos.
Proof.
  induction rest as [|char rest IH]; intros i epos Hi; simpl; [lia|].
  destruct (char =? 10); [lia|].
  specialize (IH (i + 1) (epos + i)). lia.
Qed.

(** Whenever [getSelectionPos] returns, the region is normalised and inside
    the buffer, for every mark. *)
Lemma getSelectionPos_bounds rl bpos epos cpos :
  cursor_ok rl ->
  getSelectionPos rl = Some (bpos, epos, cpos) ->
  0 <= bpos <= epos /\ epos <= len (line rl) /\ cpos = bpos.
Proof.
  unfold cursor_ok, getSelectionPos. intros Hok.
  destruct (Z.ltb_spec (mark rl) (pos rl)) as [Hlt|Hge];
    destruct (visualLine rl).
  - destruct (slice_from _ _) as [rest|] eqn:Hrest; [|discriminate].
    pose proof (visualLine_loop_ge rest 0 (pos rl + 1) ltac:(lia)) as Hloop.
    destruct (Z.gtb_spec (visualLine_loop rest 0 (pos rl + 1)) (len (line rl) - 1));
      simpl; intros [= <- <- <-]; lia.
  - destruct (Z.gtb_spec (pos rl + 1) (len (line rl) - 1));
      destruct (Z.ltb_spec (mark rl) 0); intros [= <- <- <-]; lia.
  - destruct (slice_from _ _) as [rest|] eqn:Hrest; [|discriminate].
    pose proof (visualLine_loop_ge rest 0 (mark rl) ltac:(lia)) as Hloop.
    destruct (Z.gtb_spec (visualLine_loop rest 0 (mark rl)) (len (line rl) - 1));
      simpl; intros [= <- <- <-]; lia.
  - destruct (Z.gtb_spec (mark rl) (len (line rl) - 1));
      destruct (Z.ltb_spec (pos rl) 0); intros [= <- <- <-]; lia.
Qed.

(** Outside visual-line mode it always returns. *)
Lemma getSelectionPos_returns rl :
  visualLine rl = false -> exists bpos epos, getSelectionPos rl = Some (bpos, epos, bpos).
Proof.
  unfold getSelectionPos. intros ->.
  destruct (mark rl <? pos rl); eauto.
Qed.

(** In visual-line mode it returns exactly when the end of the region, before
    the extension to the end of the line, is inside the buffer. *)
Lemma getSelectionPos_visual_returns rl :
  cursor_ok rl ->
  visualLine rl = true ->
  (if mark rl <? pos rl then pos rl + 1 else mark rl) <= len (line rl) ->
  exists bpos epos, getSelectionPos rl = Some (bpos, epos, bpos).
Proof.
  unfold cursor_ok, getSelectionPos. intros Hok -> Hin.
  destruct (Z.ltb_spec (mark rl) (pos rl)); unfold slice_from, slice.
  - destruct (Z.leb_spec 0 (pos rl + 1)); [|lia].
    destruct (Z.leb_spec (pos rl + 1) (len (line rl))); [|lia].
    rewrite Z.leb_refl. simpl. eauto.
  - destruct (Z.leb_spec 0 (mark rl)); [|lia].
    destruct (Z.leb_spec (mark rl) (len (line rl))); [|lia].
    rewrite Z.leb_refl. simpl. eauto.
Qed.

(** C3, the failing case.  In visual-line mode, with the cursor at the end of
    the buffer and the mark before it, the end of the region is
    [rl.pos + 1 = len(rl.line) + 1] when the loop ranges over
    [rl.line[epos:]]: the slice expression panics, two statements before the
    clamp announced as "Ensure nothing is out of bounds". *)
Theorem getSelectionPos_visual_line_faults :
  let rl := visual_session (str "a") 1 0 in
  cursor_ok rl /\ visualLine rl = true /\ getSelectionPos rl = None.
Proof.
  simpl. split; [|split; reflexivity].
  unfold cursor_ok, len. simpl. lia.
Qed.

(** ** Quote-pair disambiguation (C7) *)

(** Case analysis on the comparisons of the goal, one at a time; the cases
    that contradict the hypotheses are closed at once. *)
Ltac case_comparisons :=
  repeat (match goal with
          | |- context [?a =? ?b] => destruct (Z.eqb_spec a b)
          | |- context [?a <? ?b] => destruct (Z.ltb_spec a b)
          | |- context [?a >? ?b] => destruct (Z.gtb_spec a b)
          | |- context [?a >=? ?b] => destruct (Z.geb_spec a b)
          | |- context [?a <=? ?b] => destruct (Z.leb_spec a b)
          end; try lia).

(** C7.  The positions are those a search returns: an index of the line or
    -1.  When both pairs were found the one that encloses the other is
    returned; when exactly one pair was found it is returned; when none was
    found both outputs are -1. *)
Theorem adjustSurroundQuotes_outermost (dBpos dEpos sBpos sEpos : Z) :
  -1 <= dBpos -> -1 <= dEpos -> -1 <= sBpos -> -1 <= sEpos ->
  (found dBpos dEpos -> found sBpos sEpos -> dBpos < sBpos -> sEpos < dEpos ->
     adjustSurroundQuotes dBpos dEpos sBpos sEpos = (dBpos, dEpos)) /\
  (found dBpos dEpos -> found sBpos sEpos -> sBpos < dBpos -> dEpos < sEpos ->
     adjustSurroundQuotes dBpos dEpos sBpos sEpos = (sBpos, sEpos)) /\
  (found dBpos dEpos -> ~ found sBpos sEpos ->
     adjustSurroundQuotes dBpos dEpos sBpos sEpos = (dBpos, dEpos)) /\
  (found sBpos sEpos -> ~ found dBpos dEpos ->
     adjustSurroundQuotes dBpos dEpos sBpos sEpos = (sBpos, sEpos)) /\
  (~ found dBpos dEpos -> ~ found sBpos sEpos ->
     adjustSurroundQuotes dBpos dEpos sBpos sEpos = (-1, -1)).
Proof.
  intros HdB HdE HsB HsE. unfold found, adjustSurroundQuotes.
  repeat split; intros; case_comparisons; simpl; reflexivity.
Qed.

Lemma adjustSurroundQuotes_outermost_witness :
  adjustSurroundQuotes 0 5 1 3 = (0, 5).
Proof.
  refine (proj1 (adjustSurroundQuotes_outermost 0 5 1 3 _ _ _ _) _ _ _ _);
    unfold found; lia.
Defined.

(** When both pairs were found and neither encloses the other (the quotes
    interleave), no pair is selected. *)
Lemma adjustSurroundQuotes_interleaved (dBpos dEpos sBpos sEpos : Z) :
  0 <= dBpos -> 0 <= dEpos -> 0 <= sBpos -> 0 <= sEpos ->
  ~ (dBpos < sBpos /\ sEpos < dEpos) ->
  ~ (sBpos < dBpos /\ dEpos < sEpos) ->
  adjustSurroundQuotes dBpos dEpos sBpos sEpos = (-1, -1).
Proof.
  intros. unfold adjustSurroundQuotes.
  case_comparisons; simpl; reflexivity.
Qed.

(** ** Surround search (C10) *)

(** C10.  [searchSurround] returns in the state it was called in: the cursor
    it moved while probing is back at its initial position and the line is
    the same, for every rune and whatever [substrPos] answers. *)
Theorem searchSurround_restores_cursor (h : Helpers) (r : rune) (rl : Instance) :
  faulted (searchSurround h r rl) = false /\
  final (searchSurround h r rl) = rl /\
  pos (final (searchSurround h r rl)) = pos rl /\
  line (final (searchSurround h r rl)) = line rl.
Proof.
  assert (H : faulted (searchSurround h r rl) = false /\
              final (searchSurround h r rl) = rl).
  { unfold searchSurround, bind, modify, get, ret.
    destruct (matchSurround r) as [bchar echar].
    destruct (_ =? _); simpl; [|split; [done|by destruct rl]].
    destruct (_ =? -1); simpl; [destruct (negb _); simpl|];
      (split; [done|by destruct rl]). }
  destruct H as [Hf Hrl]. rewrite Hrl. done.
Qed.

(** ** Brace motions (C8) *)

Lemma index_lookup {A} (l : list A) (i : Z) :
  0 <= i -> index l i = l !! Z.to_nat i.
Proof. unfold index. intros H. destruct (Z.leb_spec 0 i); [done|lia]. Qed.

Lemma nextBrace_loop_spec rest : forall d,
  0 < d ->
  (nextBrace_loop rest d = 0 /\
   forall j, rest !! j <> Some (chr "{")) \/
  (d <= nextBrace_loop rest d /\
   rest !! Z.to_nat (nextBrace_loop rest d - d) = Some (chr "{") /\
   forall j, (j < Z.to_nat (nextBrace_loop rest d - d))%nat ->
             rest !! j <> Some (chr "{")).
Proof.
  induction rest as [|c rest IH]; intros d Hd; simpl.
  - left. split; [done|]. intros j. by rewrite lookup_nil.
  - destruct (Z.eqb_spec c (chr "{")) as [->|Hc].
    + right. split; [lia|]. rewrite Z.sub_diag. simpl. split; [done|].
      intros j Hj. lia.
    + destruct (IH (d + 1) ltac:(lia)) as [[H0 Hall]|(Hle & Hat & Hbefore)].
      * left. split; [done|]. intros [|j]; simpl; [congruence|apply Hall].
      * right. split; [lia|].
        replace (Z.to_nat (nextBrace_loop rest (d + 1) - d))
          with (S (Z.to_nat (nextBrace_loop rest (d + 1) - (d + 1)))) by lia.
        simpl. split; [done|].
        intros [|j] Hj; simpl; [congruence|]. apply Hbefore. lia.
Qed.

(** [viJumpNextBrace] returns the offset of the nearest ['{'] after the
    cursor, and 0 exactly when there is none. *)
Lemma viJumpNextBrace_nearest rl :
  cursor_ok rl ->
  exists d, viJumpNextBrace rl = Some d /\
    ((d = 0 /\ forall i, pos rl < i -> index (line rl) i <> Some (chr "{")) \/
     (0 < d /\ index (line rl) (pos rl + d) = Some (chr "{") /\
      forall i, pos rl < i < pos rl + d -> index (line rl) i <> Some (chr "{"))).
Proof.
  unfold cursor_ok, viJumpNextBrace. intros Hok.
  destruct (Z.geb_spec (pos rl) (len (line rl) - 1)) as [Hlast|Hmore].
  - exists 0. split; [done|]. left. split; [done|].
    intros i Hi. rewrite index_out_of_range; [done|lia].
  - destruct (Z.ltb_spec (pos rl + 1) 0); [lia|].
    eexists. split; [done|].
    set (rest := drop _ _).
    assert (Hrest : forall i, pos rl < i ->
              index (line rl) i = rest !! Z.to_nat (i - (pos rl + 1))).
    { intros i Hi. rewrite index_lookup by lia. unfold rest.
      rewrite lookup_drop. f_equal. lia. }
    destruct (nextBrace_loop_spec rest 1 ltac:(lia))
      as [[H0 Hall]|(Hle & Hat & Hbefore)].
    + left. split; [done|]. intros i Hi. rewrite Hrest by done. apply Hall.
    + right. split; [lia|]. split.
      * rewrite Hrest by lia. rewrite <- Hat. f_equal. lia.
      * intros i Hi. rewrite Hrest by lia. apply Hbefore. lia.
Qed.

Lemma previousBrace_loop_S ln p i :
  previousBrace_loop ln p (S i) =
  match ln !! S i with
  | None => None
  | Some c =>
      if c =? chr "{" then Some (Z.of_nat (S i) - p)
      else previousBrace_loop ln p i
  end.
Proof. reflexivity. Qed.

Lemma previousBrace_loop_spec ln p : forall i,
  (i < length ln)%nat ->
  (previousBrace_loop ln p i = Some 0 /\
   forall j, (1 <= j <= i)%nat -> ln !! j <> Some (chr "{")) \/
  (exists k, (1 <= k <= i)%nat /\
     previousBrace_loop ln p i = Some (Z.of_nat k - p) /\
     ln !! k = Some (chr "{") /\
     forall j, (k < j <= i)%nat -> ln !! j <> Some (chr "{")).
Proof.
  induction i as [|i IH]; intros Hi.
  - left. split; [done|]. intros j Hj. lia.
  - rewrite previousBrace_loop_S.
    destruct (lookup_lt_is_Some_2 ln (S i) Hi) as [c Hc]. rewrite Hc.
    destruct (Z.eqb_spec c (chr "{")) as [->|Hne].
    + right. exists (S i). split; [lia|]. split; [done|]. split; [done|].
      intros j Hj. lia.
    + destruct (IH ltac:(lia)) as [[H0 Hall]|(k & Hk & Hres & Hat & Hafter)].
      * left. split; [done|]. intros j Hj.
        destruct (decide (j = S i)) as [->|]; [congruence|apply Hall; lia].
      * right. exists k. split; [lia|]. split; [done|]. split; [done|].
        intros j Hj.
        destruct (decide (j = S i)) as [->|]; [congruence|apply Hafter; lia].
Qed.

(** What [viJumpPreviousBrace] computes: the offset of the nearest ['{']
    among the runes at the indices 1 .. pos - 1, and 0 when there is none
    there.  The rune at index 0 is never looked at: the loop runs while
    [i != 0]. *)
Lemma viJumpPreviousBrace_nearest_from_index_1 rl :
  cursor_ok rl ->
  exists d, viJumpPreviousBrace rl = Some d /\
    ((d = 0 /\ forall i, 1 <= i < pos rl -> index (line rl) i <> Some (chr "{")) \/
     (d < 0 /\ 1 <= pos rl + d /\
      index (line rl) (pos rl + d) = Some (chr "{") /\
      forall i, pos rl + d < i < pos rl -> index (line rl) i <> Some (chr "{"))).
Proof.
  unfold cursor_ok, viJumpPreviousBrace, len. intros Hok.
  destruct (Z.eqb_spec (pos rl) 0) as [H0|Hpos].
  - exists 0. split; [done|]. left. split; [done|]. intros i Hi. lia.
  - destruct (Z.ltb_spec (pos rl - 1) 0); [lia|].
    destruct (previousBrace_loop_spec (line rl) (pos rl) (Z.to_nat (pos rl - 1))
                ltac:(lia)) as [[Hres Hall]|(k & Hk & Hres & Hat & Hafter)].
    + exists 0. split; [done|]. left. split; [done|].
      intros i Hi. rewrite index_lookup by lia. apply Hall. lia.
    + exists (Z.of_nat k - pos rl). split; [done|]. right.
      split; [lia|]. split; [lia|]. split.
      * rewrite index_lookup by lia. rewrite <- Hat. f_equal. lia.
      * intros i Hi. rewrite index_lookup by lia. apply Hafter. lia.
Qed.

(** C8, the failing case.  The only ['{'] before the cursor is the first
    rune of the line.  The scan [for i := rl.pos - 1; i != 0; i--] stops
    before index 0, so the motion answers 0, "no brace", where the offset to
    the brace is -1. *)
Theorem viJumpPreviousBrace_misses_first_rune :
  let rl := session (str "{a") 1 in
  cursor_ok rl /\
  index (line rl) 0 = Some (chr "{") /\
  viJumpPreviousBrace rl = Some 0.
Proof.
  simpl. split; [|split; reflexivity].
  unfold cursor_ok, len. simpl. lia.
Qed.

(** The same with the brace further from the cursor. *)
Example previous_brace_at_line_start_far_from_cursor :
  viJumpPreviousBrace (session (str "{ab c") 4) = Some 0.
Proof. reflexivity. Qed.

(** A brace at any later index is found. *)
Example viJumpPreviousBrace_finds_later_brace :
  viJumpPreviousBrace (session (str "a{b c") 4) = Some (-3).
Proof. reflexivity. Qed.

(** ** The keyword switcher without a matching strategy (C6) *)

Lemma text_reader_ret {A} (a : A) : text_reader (ret a).
Proof. split; reflexivity. Qed.

Lemma text_reader_get {A} (f : Instance -> A) :
  (forall rl1 rl2, line rl1 = line rl2 -> pos rl1 = pos rl2 -> f rl1 = f rl2) ->
  text_reader (get f).
Proof.
  intros Hf. split; [reflexivity|].
  intros rl1 rl2 Hl Hp. unfold get. simpl. f_equal. by apply Hf.
Qed.

Lemma text_reader_try {A} (o : Instance -> option A) :
  (forall rl1 rl2, line rl1 = line rl2 -> pos rl1 = pos rl2 -> o rl1 = o rl2) ->
  text_reader (try o).
Proof.
  intros Ho. split.
  - intros rl. unfold try. by destruct (o rl).
  - intros rl1 rl2 Hl Hp. unfold try. rewrite (Ho rl1 rl2 Hl Hp).
    by destruct (o rl2).
Qed.

Lemma text_reader_bind {A B} (m : M A) (k : A -> M B) :
  text_reader m -> (forall a, text_reader (k a)) -> text_reader (bind m k).
Proof.
  intros [Hm1 Hm2] Hk. split.
  - intros rl. unfold bind. specialize (Hm1 rl).
    destruct (m rl) as [a rl'|rl']; simpl in Hm1; subst; [|done].
    apply (Hk a).
  - intros rl1 rl2 Hl Hp. unfold bind.
    pose proof (Hm1 rl1) as H1. pose proof (Hm1 rl2) as H2.
    specialize (Hm2 rl1 rl2 Hl Hp).
    destruct (m rl1) as [a1 rl1'|rl1'], (m rl2) as [a2 rl2'|rl2'];
      simpl in *; subst; try discriminate; [|done].
    injection Hm2 as ->. by apply (Hk a2).
Qed.

Ltac text_reader_step :=
  match goal with
  | |- text_reader (bind _ _) => apply text_reader_bind; [|intros ?]
  | |- text_reader (ret _) => apply text_reader_ret
  | |- text_reader (get _) =>
      apply text_reader_get; intros ? ? Hl Hp; rewrite ?Hl, ?Hp; reflexivity
  | |- text_reader (try _) =>
      apply text_reader_try; intros ? ? Hl Hp;
      unfold selectInWord; rewrite ?Hl, ?Hp; reflexivity
  | |- text_reader (if ?b then _ else _) => destruct b
  end.

Lemma switchKeyword_selection_text_reader h :
  text_reader (switchKeyword_selection h).
Proof. unfold switchKeyword_selection. repeat text_reader_step. Qed.

Lemma switchKeyword_loop_no_strategy sws selection increase cpos : forall bpos epos rl,
  Forall (fun sw : switcher => fst (fst (fst (sw selection increase))) = false) sws ->
  switchKeyword_loop sws selection increase cpos bpos epos rl = Done tt rl.
Proof.
  induction sws as [|sw sws IH]; intros bpos epos rl Hall; [reflexivity|].
  inversion Hall as [|? ? Hsw Hrest]; subst. simpl.
  destruct (sw selection increase) as [[[changed word] obpos] oepos].
  simpl in Hsw. subst changed. simpl. by apply IH.
Qed.

Lemma switchKeyword_no_strategy h rl :
  no_strategy_applies h rl ->
  line (final (switchKeyword h rl)) = line rl /\
  pos (final (switchKeyword h rl)) = pos rl.
Proof.
  intros Hno. unfold switchKeyword, bind, undoHistoryAppend, modify, get.
  set (rl1 := set_undo _ _ rl).
  destruct (switchKeyword_selection_text_reader h) as [Hfinal Htext].
  specialize (Hfinal rl1).
  specialize (Htext rl1 rl eq_refl eq_refl).
  destruct (switchKeyword_selection h rl1) as [[[[selection cpos] bpos] epos] rl2|rl2];
    simpl in Hfinal; subst rl2; [|done].
  rewrite switchKeyword_loop_no_strategy; [done|].
  eapply Hno. symmetry. exact Htext.
Qed.

Lemma no_strategy_applies_text h rl1 rl2 :
  line rl1 = line rl2 -> pos rl1 = pos rl2 ->
  no_strategy_applies h rl1 -> no_strategy_applies h rl2.
Proof.
  intros Hl Hp Hno selection cpos bpos epos increase Hsel.
  eapply Hno.
  destruct (switchKeyword_selection_text_reader h) as [_ Htext].
  rewrite (Htext rl1 rl2 Hl Hp). exact Hsel.
Qed.

(** C6.  When no keyword switcher reports a change for the text at the
    cursor, [switchKeyword] leaves the line and the cursor as they were, and
    so does a second run from the state the first one reached.  The statement
    is about the state the call ends in, whether it returns or stops at a
    fault (the faults are the matter of C5): the line and the cursor are
    never written to. *)
Theorem switchKeyword_idempotent_no_strategy (h : Helpers) (rl : Instance) :
  no_strategy_applies h rl ->
  let once := final (switchKeyword h rl) in
  let twice := final (switchKeyword h once) in
  line once = line rl /\ pos once = pos rl /\
  line twice = line rl /\ pos twice = pos rl /\
  line twice = line once /\ pos twice = pos once.
Proof.
  intros Hno once twice.
  destruct (switchKeyword_no_strategy h rl Hno) as [Hl Hp].
  assert (Hno' : no_strategy_applies h once).
  { eapply no_strategy_applies_text; [| |exact Hno]; by symmetry. }
  destruct (switchKeyword_no_strategy h once Hno') as [Hl' Hp'].
  fold once in Hl, Hp. fold twice in Hl', Hp'.
  repeat split; congruence.
Qed.

Lemma switchKeyword_idempotent_no_strategy_witness :
  let rl := session (str "foo bar") 1 in
  faulted (switchKeyword plainHelpers rl) = false /\
  line (final (switchKeyword plainHelpers (final (switchKeyword plainHelpers rl))))
    = str "foo bar" /\
  pos (final (switchKeyword plainHelpers (final (switchKeyword plainHelpers rl)))) = 1.
Proof.
  assert (Hno : no_strategy_applies plainHelpers (session (str "foo bar") 1)).
  { intros selection cpos bpos epos increase Hsel.
    vm_compute in Hsel. injection Hsel as <- <- <- <-.
    repeat constructor. }
  destruct (switchKeyword_idempotent_no_strategy plainHelpers _ Hno)
    as (_ & _ & Hl & Hp & _).
  split; [reflexivity|]. split; [exact Hl|exact Hp].
Defined.

(** ** Faults of the keyword switcher (C5) *)

Lemma selectInWord_out_of_range cpos rl :
  len (line rl) <= cpos -> selectInWord cpos rl = None.
Proof.
  intros H. unfold selectInWord. by rewrite index_out_of_range.
Qed.

(** With the cursor at the end of the line, where every insertion leaves it,
    [switchKeyword] faults: [selectInWord] reads [rl.line[cpos]] with
    [cpos >= len(rl.line)]. *)
Lemma switchKeyword_faults_at_end_of_line h rl :
  pos rl = len (line rl) -> faulted (switchKeyword h rl) = true.
Proof.
  intros Hend.
  unfold switchKeyword, switchKeyword_selection, bind, undoHistoryAppend,
    modify, get, try, ret.
  set (rl1 := set_undo _ _ rl).
  assert (Hsel : forall c, pos rl <= c -> selectInWord c rl1 = None).
  { intros c Hc. apply selectInWord_out_of_range. simpl. lia. }
  change (pos rl1) with (pos rl). change (line rl1) with (line rl).
  destruct (match_pair is_sign is_digit _).
  - destruct (pos rl =? 0).
    + rewrite Hsel by lia; reflexivity.
    + destruct (@index Z _ (_ - 1)); [|reflexivity].
      destruct (negb _); rewrite Hsel by lia; reflexivity.
  - destruct (match_pair is_sign is_alpha _).
    + destruct (pos rl =? 0).
      * rewrite Hsel by lia; reflexivity.
      * destruct (@index Z _ (_ - 1)); [|reflexivity].
        destruct (_ =? chr " "); rewrite Hsel by lia; reflexivity.
    + rewrite Hsel by lia; reflexivity.
Qed.

(** C5, the failing cases.  On the empty line [switchKeyword] indexes
    [rl.line[0]] (in [selectInWord]) and panics; on a line of two blanks with
    the cursor on the second one it slices [rl.line[2:1]] and panics.  Both
    hold whatever [lineSlice] and the keyword switchers are. *)
Theorem switchKeyword_faults_on_empty_and_blank_lines (h : Helpers) :
  cursor_ok (session [] 0) /\
  faulted (switchKeyword h (session [] 0)) = true /\
  cursor_ok (session (str "  ") 1) /\
  faulted (switchKeyword h (session (str "  ") 1)) = true.
Proof.
  split; [unfold cursor_ok, len; simpl; lia|].
  split; [by apply switchKeyword_faults_at_end_of_line|].
  split; [unfold cursor_ok, len; simpl; lia|].
  unfold switchKeyword, switchKeyword_selection, bind, undoHistoryAppend,
    modify, get, try, ret. simpl.
  destruct (match_pair is_sign is_digit _); [reflexivity|].
  destruct (match_pair is_sign is_alpha _); reflexivity.
Qed.

(** The same on ordinary text: the cursor on the blank between two words. *)
Example switchKeyword_faults_between_words :
  faulted (switchKeyword plainHelpers (session (str "a b") 1)) = true.
Proof. reflexivity. Qed.

(** [selectInWord] itself, on the empty line. *)
Example selectInWord_faults_on_empty_line :
  selectInWord 0 (session [] 0) = None.
Proof. reflexivity. Qed.

(** ** History walk (C9) *)

Lemma currentHistory_first name history rl :
  index (historyNames rl) 0 = Some name ->
  histories rl !! name = Some history ->
  currentHistory (set_hist (histPos rl) (lineBuf rl) 0 rl) = Some (Some history).
Proof.
  intros Hname Hhist. unfold currentHistory. simpl.
  destruct (Z.eqb_spec (Z.of_nat (size (histories rl))) 0) as [Hsize|_].
  - assert (histories rl = ∅) as Hempty.
    { apply map_size_empty_iff. lia. }
    rewrite Hempty in Hhist. by rewrite lookup_empty in Hhist.
  - by rewrite Hname, Hhist.
Qed.

(** C9.  [history] is the first history source (the one [walkHistory]
    uses).  If its [GetLine] answers the index of the walk with an error, the
    walk returns without a fault, the line and the cursor are those before
    the call, and the last things printed are the error text between line
    breaks and the prompt.  [resetHelpers], which the error path calls, is
    taken not to write the line or the cursor. *)
Theorem walkHistory_GetLine_error (h : Helpers) (rl : Instance) (delta : Z)
    (name : string) (history : History) (next : gostring) (err : string) :
  (forall rl0, line (resetHelpers h rl0) = line rl0 /\
               pos (resetHelpers h rl0) = pos rl0) ->
  index (historyNames rl) 0 = Some name ->
  histories rl !! name = Some history ->
  Len history <> 0 ->
  0 < walk_position history rl delta ->
  GetLine history (Len history - walk_position history rl delta)
    = Some (next, Some err) ->
  let after := final (walkHistory h delta rl) in
  faulted (walkHistory h delta rl) = false /\
  line after = line rl /\
  pos after = pos rl /\
  exists shown,
    printed after
    = shown ++ [String.append crlf (String.append err crlf); prompt after].
Proof.
  intros Hreset Hname Hhist Hlen Hwalk Hget.
  unfold walkHistory, bind, modify, try, get, ret.
  rewrite (currentHistory_first name history rl Hname Hhist).
  destruct (Z.eqb_spec (Len history) 0) as [|_]; [done|].
  unfold walk_position in Hwalk, Hget. cbv zeta in Hwalk, Hget.
  match goal with
  | |- context [set_hist (histPos ?s + delta) _ _ _] => set (rl1 := s)
  end.
  assert (Hrl1 : line rl1 = line rl /\ pos rl1 = pos rl /\ histPos rl1 = histPos rl).
  { unfold rl1. by destruct (_ && _). }
  destruct Hrl1 as (Hl1 & Hp1 & Hh1).
  cbn [histPos set_hist]. rewrite Hh1.
  destruct (Z.gtb_spec (histPos rl + delta) (Len history)) as [Hover|Hin].
  - cbn [histPos set_hist].
    destruct (Z.gtb_spec (Len history) 0) as [_|]; [|lia].
    rewrite Hget. cbn [snd].
    match goal with
    | |- context [resetHelpers h ?s] => set (rl2 := s)
    end.
    assert (Hrl2 : line rl2 = line rl /\ pos rl2 = pos rl).
    { unfold rl2. simpl. done. }
    destruct Hrl2 as [Hl2 Hp2]. clearbody rl2.
    destruct (Hreset rl2) as [Hl Hp].
    split; [reflexivity|].
    split; [simpl; congruence|]. split; [simpl; congruence|].
    exists (printed (resetHelpers h rl2)).
    cbn [final printed print prompt]. by rewrite <- app_assoc.
  - destruct (Z.ltb_spec (histPos rl + delta) 0) as [|Hnonneg]; [lia|].
    destruct (Z.eqb_spec (histPos rl + delta) 0) as [|Hpos]; [lia|].
    cbn [histPos set_hist].
    destruct (Z.gtb_spec (histPos rl + delta) 0) as [_|]; [|lia].
    rewrite Hget. cbn [snd].
    match goal with
    | |- context [resetHelpers h ?s] => set (rl2 := s)
    end.
    assert (Hrl2 : line rl2 = line rl /\ pos rl2 = pos rl).
    { unfold rl2. simpl. done. }
    destruct Hrl2 as [Hl2 Hp2]. clearbody rl2.
    destruct (Hreset rl2) as [Hl Hp].
    split; [reflexivity|].
    split; [simpl; congruence|]. split; [simpl; congruence|].
    exists (printed (resetHelpers h rl2)).
    cbn [final printed print prompt]. by rewrite <- app_assoc.
Qed.

Lemma walkHistory_GetLine_error_witness :
  let rl := history_session (str "abc") 2 (failingHistory 3 "no such entry") in
  line (final (walkHistory plainHelpers 1 rl)) = str "abc" /\
  pos (final (walkHistory plainHelpers 1 rl)) = 2.
Proof.
  destruct (walkHistory_GetLine_error plainHelpers
              (history_session (str "abc") 2 (failingHistory 3 "no such entry"))
              1 "db" (failingHistory 3 "no such entry") [] "no such entry")
    as (_ & Hl & Hp & _).
  - intros rl0. split; reflexivity.
  - reflexivity.
  - reflexivity.
  - simpl. lia.
  - vm_compute. reflexivity.
  - reflexivity.
  - split; [exact Hl|exact Hp].
Defined.

(** What the user sees in that walk. *)
Example walkHistory_prints_the_error :
  printed (final (walkHistory plainHelpers 1
             (history_session (str "abc") 2 (failingHistory 3 "no such entry"))))
  = [String.append crlf (String.append "no such entry" crlf); ">"%string].
Proof. reflexivity. Qed.

(** The file-backed history never answers a walk with an error: the index
    [Len() - histPos] is inside the list for every position of a walk. *)
Lemma fileHistory_GetLine_in_walk (list : list gostring) (hp : Z) :
  0 < hp <= len list ->
  exists s, GetLine (fileHistory list) (Len (fileHistory list) - hp) = Some (s, None).
Proof.
  intros Hhp. simpl.
  destruct (Z.ltb_spec (len list - hp) 0); [lia|].
  destruct (index_in_range list (len list - hp) ltac:(lia)) as [s Hs].
  rewrite Hs. eauto.
Qed.

(** ** Removal of a token (C4) *)

Lemma has_prefix_spec (p : gostring) : forall s : gostring,
  has_prefix s p = true <-> exists b, s = p ++ b.
Proof.
  induction p as [|c p IH]; intros s.
  - destruct s; simpl; (split; [intros _; eexists; reflexivity|done]).
  - destruct s as [|d s]; simpl.
    + split; [done|]. intros [b Hb]. discriminate.
    + rewrite andb_true_iff, Z.eqb_eq, IH. split.
      * intros [-> [b ->]]. eauto.
      * intros [b [= -> ->]]. eauto.
Qed.

Lemma string_eqb_spec (s : gostring) : forall t : gostring,
  string_eqb s t = true <-> s = t.
Proof.
  induction s as [|a s IH]; intros [|b t]; simpl; try done.
  rewrite andb_true_iff, Z.eqb_eq, IH. split; [intros [-> ->]|intros [= -> ->]]; done.
Qed.

Lemma remove_all_cons (skip : nat) (c : rune) (s old : gostring) :
  remove_all skip (c :: s) old =
  match skip with
  | S skip' => remove_all skip' s old
  | O =>
      if has_prefix (c :: s) old
      then remove_all (length old - 1) s old
      else c :: remove_all 0 s old
  end.
Proof. reflexivity. Qed.

Lemma remove_all_skip (x : gostring) : forall (b old : gostring),
  remove_all (length x) (x ++ b) old = remove_all 0 b old.
Proof.
  induction x as [|c x IH]; intros b old; simpl.
  - by destruct b.
  - apply IH.
Qed.

Lemma remove_all_occurrence_at_head (old b : gostring) :
  old <> [] -> remove_all 0 (old ++ b) old = remove_all 0 b old.
Proof.
  destruct old as [|c old]; [done|]. intros _.
  change (remove_all 0 ((c :: old) ++ b) (c :: old))
    with (if has_prefix ((c :: old) ++ b) (c :: old)
          then remove_all (length (c :: old) - 1) (old ++ b) (c :: old)
          else c :: remove_all 0 (old ++ b) (c :: old)).
  assert (has_prefix ((c :: old) ++ b) (c :: old) = true) as ->.
  { apply has_prefix_spec. eauto. }
  replace (length (c :: old) - 1)%nat with (length old) by (simpl; lia).
  apply remove_all_skip.
Qed.

(** [ReplaceAll] removes the first occurrence and goes on in the same way
    with what follows it. *)
Lemma remove_all_first_occurrence (old : gostring) : forall a s b : gostring,
  old <> [] ->
  first_occurrence s old a b ->
  remove_all 0 s old = a ++ remove_all 0 b old.
Proof.
  induction a as [|c a IH]; intros s b Hold [-> Hfirst].
  - simpl. by apply remove_all_occurrence_at_head.
  - assert (has_prefix ((c :: a) ++ old ++ b) old = false) as Hno.
    { destruct (has_prefix _ old) eqn:Hp; [|done].
      apply has_prefix_spec in Hp as [b' Hb'].
      specialize (Hfirst [] b' Hb'). simpl in Hfirst. lia. }
    change (remove_all 0 ((c :: a) ++ old ++ b) old)
      with (if has_prefix ((c :: a) ++ old ++ b) old
            then remove_all (length old - 1) (a ++ old ++ b) old
            else c :: remove_all 0 (a ++ old ++ b) old).
    rewrite Hno. simpl. f_equal. apply IH; [done|].
    split; [done|]. intros a' b' Heq.
    specialize (Hfirst (c :: a') b'). simpl in Hfirst.
    rewrite Heq in Hfirst. specialize (Hfirst eq_refl). lia.
Qed.

Lemma remove_all_absent (old : gostring) : forall s : gostring,
  (forall a b, s <> a ++ old ++ b) -> remove_all 0 s old = s.
Proof.
  induction s as [|c s IH]; intros Habs; [done|].
  change (remove_all 0 (c :: s) old)
    with (if has_prefix (c :: s) old
          then remove_all (length old - 1) s old
          else c :: remove_all 0 s old).
  destruct (has_prefix (c :: s) old) eqn:Hp.
  - apply has_prefix_spec in Hp as [b Hb]. by destruct (Habs [] b).
  - f_equal. apply IH. intros a b ->. by apply (Habs (c :: a) b).
Qed.

Lemma remove_all_length (old : gostring) : forall (s : gostring) (skip : nat),
  (length (remove_all skip s old) <= length s)%nat.
Proof.
  induction s as [|c s IH]; intros skip; [simpl; lia|].
  rewrite remove_all_cons. destruct skip as [|skip].
  - destruct (has_prefix (c :: s) old).
    + specialize (IH (length old - 1)%nat). simpl length. lia.
    + specialize (IH 0%nat). simpl length. lia.
  - specialize (IH skip). simpl length. lia.
Qed.

(** The line comes back unchanged exactly when the token does not occur in
    it (or is empty). *)
Lemma ReplaceAll_empty_unchanged (s old : gostring) :
  ReplaceAll_empty s old = s <-> old = [] \/ forall a b, s <> a ++ old ++ b.
Proof.
  destruct old as [|c old]; [simpl; tauto|].
  change (ReplaceAll_empty s (c :: old)) with (remove_all 0 s (c :: old)).
  split.
  - intros Hsame. right. revert Hsame.
    induction s as [|d s IH]; intros Hsame a b Heq.
    + by destruct a.
    + change (remove_all 0 (d :: s) (c :: old))
        with (if has_prefix (d :: s) (c :: old)
              then remove_all (length (c :: old) - 1) s (c :: old)
              else d :: remove_all 0 s (c :: old)) in Hsame.
      destruct (has_prefix (d :: s) (c :: old)) eqn:Hp.
      * pose proof (remove_all_length (c :: old) s (length (c :: old) - 1)) as Hlen.
        rewrite Hsame in Hlen. simpl in Hlen. lia.
      * injection Hsame as Hsame.
        destruct a as [|d' a].
        -- assert (has_prefix (d :: s) (c :: old) = true); [|congruence].
           apply has_prefix_spec. eauto.
        -- injection Heq as -> ->. by apply (IH Hsame a b).
  - intros [|Habs]; [done|]. by apply remove_all_absent.
Qed.

Lemma remove_first_occurrence_spec (old : gostring) : forall a s b : gostring,
  first_occurrence s old a b -> remove_first_occurrence s old = a ++ b.
Proof.
  induction a as [|c a IH]; intros s b [-> Hfirst].
  - simpl. destruct (old ++ b) as [|d rest] eqn:Hs.
    + apply app_eq_nil in Hs as [-> ->]. done.
    + change (remove_first_occurrence (d :: rest) old)
        with (if has_prefix (d :: rest) old then drop (length old) (d :: rest)
              else d :: remove_first_occurrence rest old).
      assert (has_prefix (d :: rest) old = true) as ->.
      { apply has_prefix_spec. eauto. }
      rewrite <- Hs. by rewrite drop_app_length.
  - assert (has_prefix ((c :: a) ++ old ++ b) old = false) as Hno.
    { destruct (has_prefix _ old) eqn:Hp; [|done].
      apply has_prefix_spec in Hp as [b' Hb'].
      specialize (Hfirst [] b' Hb'). simpl in Hfirst. lia. }
    change (remove_first_occurrence ((c :: a) ++ old ++ b) old)
      with (if has_prefix ((c :: a) ++ old ++ b) old
            then drop (length old) ((c :: a) ++ old ++ b)
            else c :: remove_first_occurrence (a ++ old ++ b) old).
    rewrite Hno. simpl. f_equal. apply IH.
    split; [done|]. intros a' b' Heq.
    specialize (Hfirst (c :: a') b'). simpl in Hfirst.
    rewrite Heq in Hfirst. specialize (Hfirst eq_refl). lia.
Qed.

Lemma index_None {A} (l : list A) (i : Z) :
  0 <= i -> index l i = None -> len l <= i.
Proof.
  intros Hi. rewrite index_lookup by done. unfold len.
  intros Hnone%lookup_ge_None. lia.
Qed.

(** C4, as the code has it.  For a digit between ['1'] and ['9']:
    if the line has no token of that number, [vimDeleteToken] returns false
    in the state it was called in; if it has one, the new line is
    [strings.ReplaceAll(line, token, "")]: when that is the line itself the
    method returns false in the state it was called in, otherwise it returns
    true with the new line, the register untouched and the cursor brought
    back when it is beyond the new line.  [ReplaceAll] removes the first
    occurrence of the token and then, in the same way, every later
    occurrence in what follows. *)
Theorem vimDeleteToken_removes_every_occurrence (rl : Instance) (r : rune) :
  chr "1" <= r <= chr "9" ->
  let tokens := fst (fst (tokeniseSplitSpaces (line rl) 0)) in
  let s := string_of_runes (line rl) in
  match index tokens (r - chr "1") with
  | Some tok =>
      (ReplaceAll_empty s tok = s -> vimDeleteToken r rl = Done false rl) /\
      (ReplaceAll_empty s tok <> s ->
       exists rl',
         vimDeleteToken r rl = Done true rl' /\
         line rl' = ReplaceAll_empty s tok /\
         register rl' = register rl /\
         pos rl' = (if pos rl >? len (line rl') then len (line rl') - 1
                    else pos rl)) /\
      (tok <> [] -> forall a b,
         first_occurrence s tok a b ->
         ReplaceAll_empty s tok = a ++ ReplaceAll_empty b tok)
  | None => vimDeleteToken r rl = Done false rl
  end.
Proof.
  change (chr "1") with 49. change (chr "9") with 57.
  intros Hr tokens s. subst s.
  unfold vimDeleteToken, bind, get, try, ret, modify.
  fold tokens.
  replace (r - 48 - 1) with (r - 49) by lia.
  destruct (index tokens (r - 49)) as [tok|] eqn:Htok.
  - apply index_Some in Htok.
    destruct (Z.gtb_spec (r - 48) (len tokens)) as [|_]; [lia|].
    split; [|split].
    + intros Hsame. rewrite Hsame.
      assert (string_eqb (string_of_runes (line rl)) (string_of_runes (line rl))
              = true) as -> by (by apply string_eqb_spec).
      reflexivity.
    + intros Hchanged.
      destruct (string_eqb _ (string_of_runes (line rl))) eqn:Heq.
      { apply string_eqb_spec in Heq. done. }
      cbn [line pos set_line redisplay]. unfold runes_of_string.
      destruct (pos rl >? len (ReplaceAll_empty _ tok)) eqn:Hover;
        (eexists; split; [reflexivity|]);
        cbn [line pos register set_pos set_line redisplay];
        rewrite Hover; done.
    + intros Htok_nonempty a b Hfirst.
      destruct tok as [|c tok]; [done|].
      unfold ReplaceAll_empty.
      by apply remove_all_first_occurrence.
  - apply index_None in Htok; [|lia].
    destruct (Z.gtb_spec (r - 48) (len tokens)) as [_|]; [reflexivity|lia].
Qed.

Lemma vimDeleteToken_removes_every_occurrence_witness :
  line (final (vimDeleteToken (chr "1") (session (str "a a a") 0))) = str "a".
Proof.
  pose proof (vimDeleteToken_removes_every_occurrence
                (session (str "a a a") 0) (chr "1")) as H.
  assert (Hr : chr "1" <= chr "1" <= chr "9") by (vm_compute; split; discriminate).
  specialize (H Hr). cbv zeta in H.
  assert (Htok : index (fst (fst (tokeniseSplitSpaces
                   (line (session (str "a a a") 0)) 0))) (chr "1" - chr "1")
                 = Some (str "a ")) by reflexivity.
  rewrite Htok in H. destruct H as (_ & Hchanged & _).
  destruct Hchanged as (rl' & Hrun & Hline & _).
  - vm_compute. discriminate.
  - rewrite Hrun. cbn [final]. rewrite Hline. reflexivity.
Defined.

(** C4, the counterexample.  In ["a a a"] the first token is ["a "]; it
    occurs twice.  Removing its first occurrence leaves ["a a"];
    [vimDeleteToken('1')] leaves ["a"]. *)
Lemma vimDeleteToken_not_only_first_occurrence :
  let rl := session (str "a a a") 0 in
  index (fst (fst (tokeniseSplitSpaces (line rl) 0))) 0 = Some (str "a ") /\
  remove_first_occurrence (string_of_runes (line rl)) (str "a ") = str "a a" /\
  line (final (vimDeleteToken (chr "1") rl)) = str "a" /\
  line (final (vimDeleteToken (chr "1") rl))
    <> remove_first_occurrence (string_of_runes (line rl)) (str "a ").
Proof.
  cbv zeta. split; [reflexivity|]. split; [reflexivity|].
  split; [reflexivity|]. vm_compute. discriminate.
Qed.

(** The second half of the specification's scenario: the digit beyond the
    number of tokens is a no-op. *)
Example vimDeleteToken_digit_beyond_tokens :
  vimDeleteToken (chr "2") (session (str "x") 1) = Done false (session (str "x") 1).
Proof. reflexivity. Qed.

(** The digit ['0'], which the conversion [int(r) - 48] turns into the token
    index -1, is outside the digits the operation is specified for: it
    faults. *)
Example vimDeleteToken_digit_zero_faults :
  faulted (vimDeleteToken (chr "0") (session (str "x") 1)) = true.
Proof. reflexivity. Qed.

(** ** Motions (C2) *)

Lemma len_string_ascii (s : gostring) : ascii_line s -> len_string s = len s.
Proof.
  induction 1 as [|r s Hr _ IH]; [reflexivity|].
  rewrite len_cons. simpl. rewrite IH. f_equal.
  unfold utf8_len, valid_rune.
  destruct (Z.leb_spec 0 r); [|lia].
  destruct (Z.leb_spec r 1114111); [|lia].
  destruct (Z.leb_spec 55296 r); [lia|]. simpl.
  destruct (Z.ltb_spec r 128); [done|lia].
Qed.

Lemma rTrimWhiteSpace_prefix (s : gostring) :
  exists t, s = rTrimWhiteSpace s ++ t.
Proof.
  induction s as [|r s [t IH]]; [by exists []|]. simpl.
  destruct (rTrimWhiteSpace s) as [|x xs].
  - destruct (is_blank r); [by exists (r :: s)|]. exists s. done.
  - exists t. simpl. by rewrite IH at 1.
Qed.

Lemma rTrimWhiteSpace_len_string (s : gostring) :
  ascii_line s ->
  len_string (rTrimWhiteSpace s) = len (rTrimWhiteSpace s) /\
  0 <= len (rTrimWhiteSpace s) <= len s.
Proof.
  intros Hs. destruct (rTrimWhiteSpace_prefix s) as [t Ht].
  assert (ascii_line (rTrimWhiteSpace s)) as Htrim.
  { unfold ascii_line in *. rewrite Ht in Hs. by apply Forall_app in Hs as [? _]. }
  split; [by apply len_string_ascii|].
  pose proof (len_nonneg (rTrimWhiteSpace s)). pose proof (len_nonneg t).
  pose proof (f_equal (@len Z) Ht) as Hlen. rewrite len_app in Hlen. lia.
Qed.

Lemma len_concat_token (split : list gostring) (n : nat) (tok : gostring) :
  split !! n = Some tok ->
  len (concat split)
  = len (concat (take n split)) + len tok + len (concat (drop (S n) split)).
Proof.
  intros Hn. rewrite <- (take_drop_middle split n tok Hn) at 1.
  rewrite concat_app, concat_cons, !len_app. lia.
Qed.

Lemma len_concat_take_S (split : list gostring) (n : nat) (tok : gostring) :
  split !! n = Some tok ->
  len (concat (take (S n) split)) = len (concat (take n split)) + len tok.
Proof.
  intros Hn. rewrite (take_S_r split n tok Hn).
  rewrite concat_app, len_app. simpl. rewrite app_nil_r. done.
Qed.

Lemma ascii_token (split : list gostring) (n : nat) (tok : gostring) :
  ascii_line (concat split) -> split !! n = Some tok -> ascii_line tok.
Proof.
  intros Hall Hn. unfold ascii_line in *.
  rewrite <- (take_drop_middle split n tok Hn) in Hall.
  rewrite concat_app, concat_cons in Hall.
  apply Forall_app in Hall as [_ Hall]. by apply Forall_app in Hall as [? _].
Qed.

Section Motions.
Variable rl : Instance.
Variables (split : list gostring) (idx off : Z) (tok : gostring).

Hypothesis Hcursor : cursor_ok rl.
Hypothesis Hascii : ascii_line (line rl).
Hypothesis Hparts : concat split = line rl.
Hypothesis Htok : index split idx = Some tok.
Hypothesis Hstart : len (concat (take (Z.to_nat idx) split)) + off = pos rl.
Hypothesis Hoff : 0 <= off <= len tok.
Hypothesis Hinside : idx < len split - 1 -> off < len tok.

Local Lemma idx_range : 0 <= idx < len split.
Proof. by apply index_Some in Htok. Qed.

Local Lemma tok_lookup : split !! Z.to_nat idx = Some tok.
Proof. pose proof idx_range. by rewrite <- index_lookup by lia. Qed.

Local Lemma tok_ascii : len_string tok = len tok.
Proof.
  apply len_string_ascii. eapply ascii_token; [|apply tok_lookup].
  by rewrite Hparts.
Qed.

Local Lemma tok_fits :
  len (concat (take (Z.to_nat idx) split)) + len tok <= len (line rl).
Proof.
  rewrite <- Hparts, (len_concat_token split _ tok tok_lookup).
  pose proof (len_nonneg (concat (drop (S (Z.to_nat idx)) split))). lia.
Qed.

Local Lemma start_nonneg : 0 <= len (concat (take (Z.to_nat idx) split)).
Proof. apply len_nonneg. Qed.

Lemma viJumpB_offset_in_bounds :
  exists d,
    (if len split =? 0 then Some 0
     else if (idx =? 0) && (off =? 0) then Some 0
     else if off =? 0 then
       match index split (idx - 1) with
       | None => None
       | Some prev => Some (len_string prev * -1)
       end
     else Some (off * -1)) = Some d /\
    0 <= pos rl + d <= len (line rl).
Proof.
  pose proof idx_range as Hidx. pose proof start_nonneg as Hs.
  unfold cursor_ok in Hcursor.
  destruct (Z.eqb_spec (len split) 0); [lia|].
  destruct (Z.eqb_spec idx 0) as [Hi0|Hi0], (Z.eqb_spec off 0) as [Ho0|Ho0];
    simpl.
  - exists 0. split; [done|lia].
  - exists (off * -1). split; [done|lia].
  - destruct (index_in_range split (idx - 1) ltac:(lia)) as [prev Hprev].
    rewrite Hprev. exists (len_string prev * -1). split; [done|].
    rewrite index_lookup in Hprev by lia.
    pose proof (len_concat_take_S split _ prev Hprev) as Hsum.
    replace (S (Z.to_nat (idx - 1))) with (Z.to_nat idx) in Hsum by lia.
    assert (len_string prev = len prev) as ->.
    { apply len_string_ascii. eapply ascii_token; [|exact Hprev].
      by rewrite Hparts. }
    pose proof (len_nonneg (concat (take (Z.to_nat (idx - 1)) split))).
    pose proof (len_nonneg prev). lia.
  - exists (off * -1). split; [done|lia].
Qed.

Lemma viJumpE_offset_in_bounds :
  exists d,
    (let word := rTrimWhiteSpace tok in
     if (idx =? len split - 1) && (off >=? len_string word - 1) then Some 0
     else if off >=? len_string word - 1 then
       match index split (idx + 1) with
       | None => None
       | Some next =>
           let word' := rTrimWhiteSpace next in
           Some (len_string tok - off + (len_string word' - 1))
       end
     else Some (len_string word - off - 1)) = Some d /\
    0 <= pos rl + d <= len (line rl).
Proof.
  pose proof idx_range as Hidx. pose proof start_nonneg as Hs.
  pose proof tok_fits as Hfits. pose proof tok_lookup as Hlookup.
  unfold cursor_ok in Hcursor. cbv zeta.
  assert (ascii_line tok) as Htok_ascii.
  { eapply ascii_token; [|exact Hlookup]. by rewrite Hparts. }
  destruct (rTrimWhiteSpace_len_string tok Htok_ascii) as [-> Hword].
  rewrite tok_ascii.
  destruct (Z.eqb_spec idx (len split - 1)) as [Hlast|Hlast];
    destruct (Z.geb_spec off (len (rTrimWhiteSpace tok) - 1)) as [Hpast|Hbefore];
    simpl.
  - exists 0. split; [done|lia].
  - eexists. split; [done|]. lia.
  - destruct (index_in_range split (idx + 1) ltac:(lia)) as [next Hnext].
    rewrite Hnext. eexists. split; [done|].
    rewrite index_lookup in Hnext by lia.
    replace (Z.to_nat (idx + 1)) with (S (Z.to_nat idx)) in Hnext by lia.
    assert (ascii_line next) as Hnext_ascii.
    { eapply ascii_token; [|exact Hnext]. by rewrite Hparts. }
    destruct (rTrimWhiteSpace_len_string next Hnext_ascii) as [-> Hword'].
    pose proof (len_concat_token split _ next Hnext) as Hsum.
    rewrite (len_concat_take_S split _ tok Hlookup) in Hsum.
    rewrite Hparts in Hsum.
    pose proof (len_nonneg (concat (drop (S (S (Z.to_nat idx))) split))).
    specialize (Hinside ltac:(lia)). lia.
  - eexists. split; [done|]. lia.
Qed.

Lemma viJumpW_offset_in_bounds :
  exists d,
    (if len split =? 0 then Some 0
     else if idx + 1 =? len split then Some (len (line rl) - pos rl)
     else Some (len_string tok - off)) = Some d /\
    0 <= pos rl + d <= len (line rl).
Proof.
  pose proof idx_range as Hidx. pose proof start_nonneg as Hs.
  pose proof tok_fits as Hfits. unfold cursor_ok in Hcursor.
  rewrite tok_ascii.
  destruct (Z.eqb_spec (len split) 0); [lia|].
  destruct (Z.eqb_spec (idx + 1) (len split)); eexists; (split; [done|lia]).
Qed.

Lemma viJumpBracket_offset_in_bounds :
  exists d,
    (if len split =? 0 then Some 0
     else if off =? 0 then Some (len_string tok)
     else Some (off * -1)) = Some d /\
    0 <= pos rl + d <= len (line rl).
Proof.
  pose proof idx_range as Hidx. pose proof start_nonneg as Hs.
  pose proof tok_fits as Hfits. unfold cursor_ok in Hcursor.
  rewrite tok_ascii. pose proof (len_nonneg tok).
  destruct (Z.eqb_spec (len split) 0); [lia|].
  destruct (Z.eqb_spec off 0); eexists; (split; [done|lia]).
Qed.
End Motions.

(** On a line of single-byte code points, every motion lands inside the
    buffer: the three token motions for every tokeniser whose answer obeys
    the contract of section 4.1, the bracket jump likewise, and the two brace
    motions without any condition on the line. *)
Lemma motions_land_in_buffer_ascii (tk : tokeniser) (h : Helpers) (rl : Instance) :
  cursor_ok rl ->
  (ascii_line (line rl) ->
   tokenised (line rl) (pos rl) (tk (line rl) (pos rl)) ->
   lands_in_buffer rl (viJumpB tk rl) /\
   lands_in_buffer rl (viJumpE tk rl) /\
   lands_in_buffer rl (viJumpW tk rl)) /\
  (ascii_line (line rl) ->
   tokenised (line rl) (pos rl) (tokeniseBrackets h (line rl) (pos rl)) ->
   lands_in_buffer rl (viJumpBracket h rl)) /\
  lands_in_buffer rl (viJumpPreviousBrace rl) /\
  lands_in_buffer rl (viJumpNextBrace rl).
Proof.
  intros Hok. unfold lands_in_buffer.
  split; [intros Hascii Htk; split; [|split]
         |split; [intros Hascii Htk|split]].
  - unfold viJumpB.
    destruct (tk (line rl) (pos rl)) as [[split idx] off].
    destruct Htk as (Hparts & Hnil & Hcons).
    destruct split as [|t split'].
    + exists 0. split; [done|]. unfold cursor_ok in Hok. lia.
    + destruct (Hcons ltac:(done)) as (tok & Htok & Hstart & Hoff & _).
      by eapply viJumpB_offset_in_bounds.
  - unfold viJumpE.
    destruct (tk (line rl) (pos rl)) as [[split idx] off].
    destruct Htk as (Hparts & Hnil & Hcons).
    destruct split as [|t split'].
    + exists 0. split; [done|]. unfold cursor_ok in Hok. lia.
    + destruct (Hcons ltac:(done)) as (tok & Htok & Hstart & Hoff & Hinside).
      rewrite Htok.
      destruct (Z.eqb_spec (len (t :: split')) 0) as [Hlen|_].
      { rewrite len_cons in Hlen. pose proof (len_nonneg split'). lia. }
      by eapply viJumpE_offset_in_bounds.
  - unfold viJumpW.
    destruct (tk (line rl) (pos rl)) as [[split idx] off].
    destruct Htk as (Hparts & Hnil & Hcons).
    destruct split as [|t split'].
    + exists 0. split; [done|]. unfold cursor_ok in Hok. lia.
    + destruct (Hcons ltac:(done)) as (tok & Htok & Hstart & Hoff & Hinside).
      rewrite Htok.
      destruct (viJumpW_offset_in_bounds rl (t :: split') idx off tok
                  Hok Hascii Hparts Htok Hstart Hoff Hinside)
        as (d & Hd & Hbound).
      exists d. split; [exact Hd|done].
  - unfold viJumpBracket.
    destruct (tokeniseBrackets h (line rl) (pos rl)) as [[split idx] off].
    destruct Htk as (Hparts & Hnil & Hcons).
    destruct split as [|t split'].
    + exists 0. split; [done|]. unfold cursor_ok in Hok. lia.
    + destruct (Hcons ltac:(done)) as (tok & Htok & Hstart & Hoff & _).
      rewrite Htok.
      destruct (viJumpBracket_offset_in_bounds rl (t :: split') idx off tok
                  Hok Hascii Hparts Htok Hstart Hoff)
        as (d & Hd & Hbound).
      exists d. split; [exact Hd|done].
  - destruct (viJumpPreviousBrace_nearest_from_index_1 rl Hok)
      as (d & Hd & [[Hzero _]|(Hneg & Hge & _)]);
      exists d; (split; [done|]); unfold cursor_ok in Hok; lia.
  - destruct (viJumpNextBrace_nearest rl Hok)
      as (d & Hd & [[Hzero _]|(Hpos & Hat & _)]);
      exists d; (split; [done|]); unfold cursor_ok in Hok; [lia|].
    apply index_Some in Hat. lia.
Qed.

(** The backward-kill-word scenario of the specification: on
    ["hello world"] with the cursor at 6 the whitespace tokeniser answers
    with the contract's tokens and [viJumpB] returns -6. *)
Example viJumpB_hello_world :
  let rl := session (str "hello world") 6 in
  tokeniseSplitSpaces (line rl) (pos rl) = ([str "hello "; str "world"], 1, 0) /\
  viJumpB tokeniseSplitSpaces rl = Some (-6).
Proof. split; reflexivity. Qed.

(** C2, the failing case.  The line is "éééé b" (six runes, ten bytes),
    the cursor at 0, the tokeniser the whitespace tokeniser, as in
    [copyPrevShellWord].  Its answer obeys the contract: the tokens
    ["éééé "] and ["b"], token 0, offset 0.  [viJumpE] measures the trimmed
    token with [len(word)], the number of BYTES of the string, and returns
    8 - 0 - 1 = 7; [viJumpW] returns [len(split[index])] = 9.  The line has
    6 runes: both offsets take the cursor beyond the end of the buffer. *)
Theorem viJumpE_beyond_buffer_on_multibyte_line :
  let rl := session ([233; 233; 233; 233] ++ str " b") 0 in
  cursor_ok rl /\
  len (line rl) = 6 /\
  tokenised (line rl) (pos rl) (tokeniseSplitSpaces (line rl) (pos rl)) /\
  viJumpE tokeniseSplitSpaces rl = Some 7 /\
  viJumpW tokeniseSplitSpaces rl = Some 9 /\
  ~ lands_in_buffer rl (viJumpE tokeniseSplitSpaces rl) /\
  ~ lands_in_buffer rl (viJumpW tokeniseSplitSpaces rl).
Proof.
  cbv zeta.
  split; [unfold cursor_ok, len; simpl; lia|].
  split; [reflexivity|].
  split.
  { split; [reflexivity|]. split; [done|]. intros _.
    exists [233; 233; 233; 233; 32]. split; [reflexivity|].
    split; [reflexivity|]. unfold len. simpl. lia. }
  split; [reflexivity|]. split; [reflexivity|].
  split; intros (d & Hd & Hbound); vm_compute in Hd; injection Hd as <-;
    unfold len in Hbound; simpl in Hbound; lia.
Qed.

(** ** Matchers *)

(** X1.  The pair of delimiters [matchSurround] answers for a rune is a pair
    that [matches] accepts, for every rune. *)
Theorem matchSurround_pair_matches (r : rune) :
  matches (fst (matchSurround r)) (snd (matchSurround r)) = true.
Proof.
  unfold matchSurround.
  repeat match goal with
         | |- context [if r =? ?c then _ else _] =>
             destruct (Z.eqb_spec r c) as [->|?]; [reflexivity|]
         end.
  unfold matches. simpl fst. simpl snd.
  repeat match goal with
         | |- context [if r =? ?c then _ else _] =>
             destruct (Z.eqb_spec r c) as [Heq|?];
             [first [contradiction | reflexivity]|]
         end.
  apply Z.eqb_refl.
Qed.

(** X2.  An opening bracket, its closing bracket, and both members of the
    pair [matchSurround] answers, all give the same pair. *)
Theorem matchSurround_canonical (r : rune) :
  matchSurround (fst (matchSurround r)) = matchSurround r /\
  matchSurround (snd (matchSurround r)) = matchSurround r.
Proof.
  unfold matchSurround.
  repeat match goal with
         | |- context [if r =? ?c then _ else _] =>
             destruct (Z.eqb_spec r c) as [->|?]; [split; reflexivity|]
         end.
  simpl fst. simpl snd.
  repeat match goal with
         | |- context [if r =? ?c then _ else _] =>
             destruct (Z.eqb_spec r c) as [Heq|?]; [contradiction|]
         end.
  split; reflexivity.
Qed.

(** ** The numeric argument *)

(** X3.  In the Vi keymaps [getIterations] never answers less than 1,
    whatever was accumulated, and in every keymap it empties the
    accumulator. *)
Theorem getIterations_vi_at_least_one (a : Iterations) :
  iterations (snd (getIterations a)) = [] /\
  (mainIsEmacs a = false -> 1 <= fst (getIterations a)).
Proof.
  unfold getIterations. destruct (Atoi (iterations a)) as [i err].
  split; [reflexivity|]. intros ->. simpl.
  destruct (Z.leb_spec i 0); simpl; lia.
Qed.

Lemma getIterations_vi_at_least_one_witness :
  1 <= fst (getIterations (mkIterations (str "-7") false false)).
Proof.
  apply (getIterations_vi_at_least_one (mkIterations (str "-7") false false)).
  reflexivity.
Defined.

Lemma typed_digits_iterations (ds : gostring) : forall a,
  negativeArg a = false ->
  iterations (typed_digits ds a) = iterations a ++ ds /\
  negativeArg (typed_digits ds a) = false /\
  mainIsEmacs (typed_digits ds a) = mainIsEmacs a.
Proof.
  induction ds as [|d ds IH]; intros a Hneg; simpl.
  - by rewrite app_nil_r.
  - destruct (IH (addIteration [d] a)) as (Hi & Hn & Hm).
    { unfold addIteration. simpl. by rewrite Hneg. }
    rewrite Hi, Hn, Hm. unfold addIteration. simpl. rewrite Hneg. simpl.
    by rewrite <- app_assoc.
Qed.

Lemma decimal_bounds (ds : gostring) :
  Forall (fun d => is_digit d = true) ds ->
  0 <= decimal ds < 10 ^ len ds.
Proof.
  induction 1 as [|d ds Hd _ IH]; [simpl; change (len []) with 0; lia|].
  rewrite len_cons. simpl decimal.
  pose proof (len_nonneg ds).
  rewrite Z.pow_add_r by lia.
  assert (0 < 10 ^ len ds) by (apply Z.pow_pos_nonneg; lia).
  change (chr "0") with 48 in *. change (chr "9") with 57 in *.
  unfold is_digit in Hd.
  apply andb_true_iff in Hd as [Hlo%Z.leb_le Hhi%Z.leb_le].
  change (chr "0") with 48 in *. change (chr "9") with 57 in *.
  set (P := 10 ^ len ds) in *. change (10 ^ 1) with 10. nia.
Qed.

Lemma ParseUint_decimal (ds : gostring) : forall acc,
  0 <= acc ->
  Forall (fun d => is_digit d = true) ds ->
  acc * 10 ^ len ds + decimal ds <= maxUint64 ->
  ParseUint acc ds = Value (acc * 10 ^ len ds + decimal ds).
Proof.
  induction ds as [|d ds IH]; intros acc Hacc Hds Hfit.
  - simpl. f_equal. change (len []) with 0. lia.
  - inversion Hds as [|? ? Hd Hrest]; subst.
    pose proof (decimal_bounds ds Hrest) as Hb.
    pose proof (len_nonneg ds).
    assert (0 < 10 ^ len ds) by (apply Z.pow_pos_nonneg; lia).
    assert (0 <= d - chr "0").
    { unfold is_digit in Hd. apply andb_true_iff in Hd as [Hlo%Z.leb_le _]. lia. }
    rewrite len_cons, Z.pow_add_r in Hfit |- * by lia.
    simpl decimal in Hfit |- *. change (10 ^ 1) with 10 in Hfit |- *.
    set (P := 10 ^ len ds) in *.
    simpl ParseUint. rewrite Hd.
    destruct (Z.gtb_spec (acc * 10 + (d - chr "0")) maxUint64) as [Hover|_].
    + exfalso. nia.
    + rewrite IH; [f_equal; fold P; lia|lia|done|fold P; lia].
Qed.

Lemma Atoi_digits (ds : gostring) :
  Forall (fun d => is_digit d = true) ds ->
  (0 < length ds < 19)%nat ->
  Atoi ds = (decimal ds, false).
Proof.
  intros Hds Hlen. destruct ds as [|d ds]; [simpl in Hlen; lia|].
  unfold Atoi.
  assert (Hd : is_digit d = true) by (by inversion Hds).
  assert ((d =? chr "-") = false /\ (d =? chr "+") = false) as [-> ->].
  { unfold is_digit in Hd.
    apply andb_true_iff in Hd as [Hlo%Z.leb_le Hhi%Z.leb_le].
    change (chr "0") with 48 in Hlo. change (chr "9") with 57 in Hhi.
    change (chr "-") with 45. change (chr "+") with 43.
    split; apply Z.eqb_neq; lia. }
  simpl orb. cbv iota.
  pose proof (decimal_bounds (d :: ds) Hds) as Hb.
  assert (10 ^ len (d :: ds) <= 10 ^ 18).
  { apply Z.pow_le_mono_r; [lia|]. unfold len. lia. }
  rewrite ParseUint_decimal by (unfold maxUint64; first [done|lia]).
  replace (0 * 10 ^ len (d :: ds) + decimal (d :: ds)) with (decimal (d :: ds)) by lia.
  destruct (Z.geb_spec (decimal (d :: ds)) (2 ^ 63)); [lia|].
  reflexivity.
Qed.

(** X4.  Digit keys accumulate to a decimal number: after the digits [ds]
    (at most 18 of them) were typed on an empty accumulator,
    [getIterations] answers the number they denote, except that the Vi
    keymaps turn 0 into 1. *)
Theorem getIterations_typed_digits (ds : gostring) (a : Iterations) :
  Forall (fun d => is_digit d = true) ds ->
  (0 < length ds < 19)%nat ->
  iterations a = [] ->
  negativeArg a = false ->
  fst (getIterations (typed_digits ds a))
  = if negb (mainIsEmacs a) && (decimal ds =? 0) then 1 else decimal ds.
Proof.
  intros Hds Hlen Hempty Hneg.
  destruct (typed_digits_iterations ds a Hneg) as (Hi & _ & Hm).
  unfold getIterations. rewrite Hi, Hm, Hempty. simpl app.
  rewrite Atoi_digits by done.
  pose proof (decimal_bounds ds Hds) as Hb.
  destruct (mainIsEmacs a); cbn [negb andb orb fst].
  - reflexivity.
  - rewrite ?orb_false_r.
    destruct (Z.leb_spec (decimal ds) 0), (Z.eqb_spec (decimal ds) 0);
      try reflexivity; lia.
Qed.

Lemma getIterations_typed_digits_witness :
  fst (getIterations (typed_digits (str "42") (mkIterations [] false true))) = 42.
Proof.
  rewrite (getIterations_typed_digits (str "42") (mkIterations [] false true)).
  - reflexivity.
  - repeat constructor.
  - simpl. lia.
  - reflexivity.
  - reflexivity.
Defined.

Lemma Atoi_minus_digits (ds : gostring) :
  Forall (fun d => is_digit d = true) ds ->
  (0 < length ds < 19)%nat ->
  Atoi (chr "-" :: ds) = (- decimal ds, false).
Proof.
  intros Hds Hlen. unfold Atoi. rewrite Z.eqb_refl. simpl orb. cbv iota.
  destruct ds as [|d ds]; [simpl in Hlen; lia|].
  pose proof (decimal_bounds (d :: ds) Hds) as Hb.
  assert (10 ^ len (d :: ds) <= 10 ^ 18).
  { apply Z.pow_le_mono_r; [lia|]. unfold len. lia. }
  rewrite ParseUint_decimal by (unfold maxUint64; first [done|lia]).
  replace (0 * 10 ^ len (d :: ds) + decimal (d :: ds)) with (decimal (d :: ds)) by lia.
  cbn [negb andb].
  destruct (Z.gtb_spec (decimal (d :: ds)) (2 ^ 63)); [lia|].
  reflexivity.
Qed.

(** X5.  A negative argument: after [negArgument] and the digits [ds],
    whatever was accumulated before, the Emacs keymap reads minus the number
    the digits denote, and the Vi keymaps read 1. *)
Theorem getIterations_negative_argument (ds : gostring) (a : Iterations) :
  Forall (fun d => is_digit d = true) ds ->
  (0 < length ds < 19)%nat ->
  fst (getIterations (typed_digits ds (negArgument a)))
  = if mainIsEmacs a then - decimal ds else 1.
Proof.
  intros Hds Hlen. destruct ds as [|d ds]; [simpl in Hlen; lia|].
  simpl typed_digits.
  set (a1 := addIteration [d] (negArgument a)).
  assert (Ha1 : iterations a1 = [chr "-"; d] /\ negativeArg a1 = false /\
                mainIsEmacs a1 = mainIsEmacs a).
  { unfold a1, addIteration, negArgument. simpl. done. }
  destruct Ha1 as (Hi1 & Hn1 & Hm1).
  change (fold_left (fun a d => addIteration [d] a) ds a1)
    with (typed_digits ds a1).
  destruct (typed_digits_iterations ds a1 Hn1) as (Hi & _ & Hm).
  unfold getIterations. rewrite Hi, Hm, Hi1, Hm1.
  change ([chr "-"; d] ++ ds) with (chr "-" :: d :: ds).
  rewrite Atoi_minus_digits by done.
  pose proof (decimal_bounds (d :: ds) Hds) as Hb.
  destruct (mainIsEmacs a); cbn [negb andb orb fst].
  - reflexivity.
  - rewrite ?orb_false_r.
    destruct (Z.leb_spec (- decimal (d :: ds)) 0); [reflexivity|lia].
Qed.

Lemma getIterations_negative_argument_witness :
  fst (getIterations (typed_digits (str "3") (negArgument (mkIterations (str "12") false true))))
  = -3.
Proof.
  rewrite (getIterations_negative_argument (str "3") (mkIterations (str "12") false true)).
  - reflexivity.
  - repeat constructor.
  - simpl. lia.
Defined.
(** ** More on slicing *)

Lemma slice_in_range {A} (l : list A) (lo hi : Z) :
  0 <= lo <= hi -> hi <= len l ->
  slice l lo hi = Some (take (Z.to_nat (hi - lo)) (drop (Z.to_nat lo) l)).
Proof.
  intros Hlo Hhi. unfold slice.
  destruct (Z.leb_spec 0 lo); [|lia].
  destruct (Z.leb_spec lo hi); [|lia].
  destruct (Z.leb_spec hi (len l)); [|lia]. reflexivity.
Qed.

Lemma slice_to_in_range {A} (l : list A) (hi : Z) :
  0 <= hi <= len l -> slice_to l hi = Some (take (Z.to_nat hi) l).
Proof.
  intros H. unfold slice_to. rewrite slice_in_range by lia.
  rewrite Z.sub_0_r. reflexivity.
Qed.

Lemma slice_from_in_range {A} (l : list A) (lo : Z) :
  0 <= lo <= len l -> slice_from l lo = Some (drop (Z.to_nat lo) l).
Proof.
  intros H. unfold slice_from. rewrite slice_in_range by lia.
  f_equal. apply take_ge. rewrite length_drop. unfold len. lia.
Qed.

Lemma slice_to_negative {A} (l : list A) (hi : Z) : hi < 0 -> slice_to l hi = None.
Proof.
  intros H. unfold slice_to, slice.
  destruct (Z.leb_spec 0 hi); [lia|]. reflexivity.
Qed.

Lemma len_take {A} (l : list A) (n : Z) :
  0 <= n <= len l -> len (take (Z.to_nat n) l) = n.
Proof. unfold len. intros H. rewrite length_take. lia. Qed.

Lemma len_drop {A} (l : list A) (n : Z) :
  0 <= n <= len l -> len (drop (Z.to_nat n) l) = len l - n.
Proof. unfold len. intros H. rewrite length_drop. lia. Qed.

(** ** Deletion by a motion *)

(** X6.  A forward deletion that stops before the last rune of the line
    removes exactly the [adjust] runes from the cursor on, and leaves the
    cursor where it is. *)
Theorem viDeleteByAdjust_forward (c : Collaborators) (adjust : Z) (rl : Instance) :
  cursor_ok rl ->
  0 < adjust ->
  pos rl + adjust < len (line rl) - 1 ->
  let after := final (viDeleteByAdjust c adjust rl) in
  faulted (viDeleteByAdjust c adjust rl) = false /\
  line after = take (Z.to_nat (pos rl)) (line rl)
               ++ drop (Z.to_nat (pos rl + adjust)) (line rl) /\
  pos after = pos rl /\
  len (line after) = len (line rl) - adjust /\
  cursor_ok after.
Proof.
  unfold cursor_ok. intros Hok Hadj Hin.
  unfold viDeleteByAdjust, bind, get, try, ret, modify.
  destruct (Z.eqb_spec (len (line rl)) 0); [lia|].
  destruct (Z.eqb_spec adjust 0); [lia|].
  destruct (Z.geb_spec (pos rl + adjust) (len (line rl) - 1)); [lia|].
  destruct (Z.eqb_spec (pos rl + adjust) 0); [lia|].
  destruct (Z.ltb_spec adjust 0); [lia|].
  rewrite slice_to_in_range by lia.
  rewrite slice_from_in_range by lia.
  cbn [final faulted line pos set_line].
  split; [done|]. split; [done|]. split; [done|].
  rewrite len_app, len_take, len_drop by lia. lia.
Qed.

Lemma viDeleteByAdjust_forward_witness :
  line (final (viDeleteByAdjust (mkCollaborators (fun _ rl => rl) (fun _ rl => rl))
                 2 (session (str "abcdef") 1)))
  = str "adef".
Proof.
  destruct (viDeleteByAdjust_forward
              (mkCollaborators (fun _ rl => rl) (fun _ rl => rl))
              2 (session (str "abcdef") 1)) as (_ & Hline & _).
  - unfold cursor_ok, len. simpl. lia.
  - lia.
  - unfold len. simpl. lia.
  - rewrite Hline. reflexivity.
Defined.

(** X7.  A forward deletion that reaches the last rune of the line cuts the
    line to [rl.line[:rl.pos-1]]: with the cursor at 0 it faults; otherwise
    the rune before the cursor goes too and the cursor, which is not moved,
    ends one position beyond the end of the line. *)
Theorem viDeleteByAdjust_to_end_of_line (c : Collaborators) (adjust : Z)
    (rl : Instance) :
  cursor_ok rl ->
  line rl <> [] ->
  0 < adjust ->
  len (line rl) - 1 <= pos rl + adjust ->
  let after := final (viDeleteByAdjust c adjust rl) in
  (pos rl = 0 -> faulted (viDeleteByAdjust c adjust rl) = true) /\
  (0 < pos rl ->
     faulted (viDeleteByAdjust c adjust rl) = false /\
     line after = take (Z.to_nat (pos rl - 1)) (line rl) /\
     pos after = pos rl /\
     pos after = len (line after) + 1).
Proof.
  unfold cursor_ok. intros Hok Hne Hadj Hend.
  assert (0 < len (line rl)).
  { unfold len. destruct (line rl); [done|simpl; lia]. }
  unfold viDeleteByAdjust, bind, get, try, ret, modify.
  destruct (Z.eqb_spec (len (line rl)) 0); [lia|].
  destruct (Z.eqb_spec adjust 0); [lia|].
  destruct (Z.geb_spec (pos rl + adjust) (len (line rl) - 1)); [|lia].
  destruct (Z.ltb_spec adjust 0); [lia|].
  split.
  - intros Hzero. rewrite slice_to_negative by lia. reflexivity.
  - intros Hpos. rewrite slice_to_in_range by lia.
    cbn [final faulted line pos set_line].
    split; [done|]. split; [done|]. split; [done|].
    rewrite len_take by lia. lia.
Qed.

Lemma viDeleteByAdjust_to_end_of_line_witness :
  faulted (viDeleteByAdjust (mkCollaborators (fun _ rl => rl) (fun _ rl => rl))
             2 (session (str "ab") 0)) = true.
Proof.
  refine (proj1 (viDeleteByAdjust_to_end_of_line
                   (mkCollaborators (fun _ rl => rl) (fun _ rl => rl))
                   2 (session (str "ab") 0) _ _ _ _) _).
  - unfold cursor_ok, len. simpl. lia.
  - discriminate.
  - lia.
  - unfold len. simpl. lia.
  - reflexivity.
Defined.
(** ** The word around the cursor *)

Lemma selectInWord_back_spec (cls : rune -> bool) (ln : list rune) : forall n : nat,
  (n < length ln)%nat ->
  exists b : Z,
    selectInWord_back cls ln n = Some b /\
    -1 <= b <= Z.of_nat n /\
    (forall i : nat, b < Z.of_nat i -> (i <= n)%nat ->
       exists x, ln !! i = Some x /\ cls x = true) /\
    (b = -1 \/ 0 <= b /\ exists x, ln !! Z.to_nat b = Some x /\ cls x = false).
Proof.
  induction n as [|n IH]; intros Hn.
  - destruct (lookup_lt_is_Some_2 ln 0 Hn) as [x Hx].
    simpl. rewrite Hx. destruct (cls x) eqn:Hcls.
    + exists (-1). split; [done|]. split; [lia|]. split; [|by left].
      intros i Hi Hle. replace i with 0%nat by lia. eauto.
    + exists 0. split; [done|]. split; [lia|]. split; [|right; split; [lia|eauto]].
      intros i Hi Hle. lia.
  - destruct (lookup_lt_is_Some_2 ln (S n) Hn) as [x Hx].
    cbn [selectInWord_back]. rewrite Hx. destruct (cls x) eqn:Hcls.
    + destruct (IH ltac:(lia)) as (b & Hb & Hrange & Hrun & Hstop).
      exists b. split; [done|]. split; [lia|]. split; [|done].
      intros i Hi Hle. destruct (decide (i = S n)) as [->|]; [eauto|].
      apply Hrun; lia.
    + exists (Z.of_nat (S n)). split; [done|]. split; [lia|]. split.
      * intros i Hi Hle. lia.
      * right. split; [lia|]. exists x. by rewrite Nat2Z.id.
Qed.

Lemma selectInWord_fwd_spec (cls : rune -> bool) (rest : list rune) : forall e : Z,
  exists k : nat,
    selectInWord_fwd cls rest e = e + Z.of_nat k /\
    (k <= length rest)%nat /\
    (forall j : nat, (j < k)%nat -> exists x, rest !! j = Some x /\ cls x = true) /\
    (k = length rest \/ exists x, rest !! k = Some x /\ cls x = false).
Proof.
  induction rest as [|c rest IH]; intros e.
  - exists 0%nat. simpl. split; [lia|]. split; [lia|]. split; [|by left].
    intros j Hj. lia.
  - simpl. destruct (cls c) eqn:Hcls.
    + destruct (IH (e + 1)) as (k & Hk & Hle & Hrun & Hstop).
      exists (S k). split; [lia|]. split; [simpl; lia|]. split.
      * intros [|j] Hj; simpl; [eauto|]. apply Hrun. lia.
      * destruct Hstop as [->|Hstop]; [by left|by right].
    + exists 0%nat. split; [lia|]. split; [simpl; lia|]. split.
      * intros j Hj. lia.
      * right. simpl. eauto.
Qed.

(** X8.  With the cursor on a rune of one of the two classes (word runes, or
    runes that are neither word runes nor the blank), [selectInWord] answers
    the maximal run of runes of that class around the cursor: the span
    contains the cursor, every rune in it is of the class, and the runes
    next to it on either side, if any, are not. *)
Theorem selectInWord_maximal_run (rl : Instance) (cpos : Z) (c : rune) :
  index (line rl) cpos = Some c ->
  let cls := if word_class c then word_class else punct_class in
  cls c = true ->
  exists bpos epos,
    selectInWord cpos rl = Some (bpos, epos) /\
    0 <= bpos <= cpos /\ cpos <= epos < len (line rl) /\
    (forall i, bpos <= i <= epos ->
       exists x, index (line rl) i = Some x /\ cls x = true) /\
    (bpos = 0 \/ exists x, index (line rl) (bpos - 1) = Some x /\ cls x = false) /\
    (epos = len (line rl) - 1 \/
     exists x, index (line rl) (epos + 1) = Some x /\ cls x = false).
Proof.
  intros Hc cls Hcls.
  pose proof (index_Some _ _ _ Hc) as Hrange.
  unfold selectInWord. rewrite Hc. fold cls.
  destruct (selectInWord_back_spec cls (line rl) (Z.to_nat cpos))
    as (b & Hb & Hbrange & Hbrun & Hbstop); [unfold len in Hrange; lia|].
  rewrite Hb.
  destruct (selectInWord_fwd_spec cls (drop (Z.to_nat cpos) (line rl)) cpos)
    as (k & Hk & Hkle & Hkrun & Hkstop).
  rewrite Hk. rewrite length_drop in Hkle.
  assert (Hcpos : line rl !! Z.to_nat cpos = Some c).
  { by rewrite <- index_lookup by lia. }
  assert (b < cpos) as Hbc.
  { destruct Hbstop as [->|(Hb0 & x & Hx & Hxcls)]; [lia|].
    destruct (decide (b = cpos)) as [->|]; [|lia]. congruence. }
  assert (0 < k)%nat as Hk0.
  { destruct k; [|lia]. destruct Hkstop as [Hlen|(x & Hx & Hxcls)].
    - rewrite length_drop in Hlen. unfold len in Hrange. lia.
    - rewrite lookup_drop in Hx. rewrite Nat.add_0_r in Hx. congruence. }
  destruct (Z.gtb_spec (cpos + Z.of_nat k) 0); [|lia].
  exists (b + 1), (cpos + Z.of_nat k - 1).
  split; [done|]. split; [lia|]. split; [unfold len; lia|]. split; [|split].
  - intros i Hi. rewrite index_lookup by lia.
    destruct (Z.le_gt_cases i cpos).
    + apply Hbrun; lia.
    + destruct (Hkrun (Z.to_nat (i - cpos)) ltac:(lia)) as (x & Hx & Hxcls).
      rewrite lookup_drop in Hx. exists x. split; [|done].
      rewrite <- Hx. f_equal. lia.
  - destruct Hbstop as [->|(Hb0 & x & Hx & Hxcls)]; [by left|right].
    exists x. split; [|done]. rewrite index_lookup by lia.
    rewrite <- Hx. f_equal. lia.
  - destruct Hkstop as [Hlen|(x & Hx & Hxcls)].
    + left. rewrite length_drop in Hlen. unfold len. lia.
    + right. exists x. split; [|done]. rewrite lookup_drop in Hx.
      rewrite index_lookup by lia. rewrite <- Hx. f_equal. lia.
Qed.

Lemma selectInWord_maximal_run_witness :
  selectInWord 5 (session (str "foo bar baz") 5) = Some (4, 6).
Proof.
  destruct (selectInWord_maximal_run (session (str "foo bar baz") 5) 5 (chr "a"))
    as (bpos & epos & Hsel & _).
  - reflexivity.
  - reflexivity.
  - rewrite Hsel. vm_compute in Hsel. symmetry. exact Hsel.
Defined.

(** X9.  With the cursor on a blank, [selectInWord] answers a span whose
    begin lies after its end: begin [cpos + 1], end [cpos - 1] (0 at the
    start of the line). *)
Theorem selectInWord_on_blank (rl : Instance) (cpos : Z) :
  index (line rl) cpos = Some (chr " ") ->
  selectInWord cpos rl
  = Some (cpos + 1, if cpos >? 0 then cpos - 1 else cpos).
Proof.
  intros Hc. pose proof (index_Some _ _ _ Hc) as Hrange.
  unfold selectInWord. rewrite Hc.
  change (word_class (chr " ")) with false. cbv iota.
  assert (Hlook : line rl !! Z.to_nat cpos = Some (chr " ")).
  { by rewrite <- index_lookup by lia. }
  assert (selectInWord_back punct_class (line rl) (Z.to_nat cpos) = Some cpos) as ->.
  { destruct (Z.to_nat cpos) as [|n] eqn:Hn; cbn [selectInWord_back];
      rewrite Hlook; change (punct_class (chr " ")) with false; cbv iota;
      f_equal; lia. }
  destruct (drop (Z.to_nat cpos) (line rl)) as [|x rest] eqn:Hdrop.
  - apply (f_equal length) in Hdrop. rewrite length_drop in Hdrop.
    unfold len in Hrange. simpl in Hdrop. lia.
  - assert (x = chr " ") as ->.
    { pose proof (lookup_drop (line rl) (Z.to_nat cpos) 0) as Hd.
      rewrite Hdrop, Nat.add_0_r, Hlook in Hd. simpl in Hd. congruence. }
    cbn [selectInWord_fwd]. change (punct_class (chr " ")) with false.
    cbv iota. reflexivity.
Qed.

Lemma selectInWord_on_blank_witness :
  selectInWord 3 (session (str "foo bar") 3) = Some (4, 2).
Proof.
  rewrite (selectInWord_on_blank (session (str "foo bar") 3) 3); reflexivity.
Defined.
(** ** Regions: extraction, replacement, deletion *)

Lemma string_of_runes_app (a b : list rune) :
  string_of_runes (a ++ b) = string_of_runes a ++ string_of_runes b.
Proof. unfold string_of_runes. apply map_app. Qed.

Lemma len_string_of_runes (l : list rune) : len (string_of_runes l) = len l.
Proof. unfold len, string_of_runes. by rewrite length_map. Qed.

Lemma string_of_runes_valid (l : list rune) :
  valid_line l -> string_of_runes l = l.
Proof.
  induction 1 as [|r l Hr _ IH]; [done|].
  simpl. rewrite Hr. f_equal. exact IH.
Qed.

Lemma take_mid_drop {A} (l : list A) (b e : Z) :
  0 <= b <= e ->
  take (Z.to_nat b) l ++ take (Z.to_nat (e - b)) (drop (Z.to_nat b) l)
    ++ drop (Z.to_nat e) l = l.
Proof.
  intros H.
  replace (drop (Z.to_nat e) l)
    with (drop (Z.to_nat (e - b)) (drop (Z.to_nat b) l)).
  - by rewrite take_drop, take_drop.
  - rewrite drop_drop. f_equal. lia.
Qed.

Lemma len_take_drop {A} (l : list A) (b e : Z) :
  0 <= b <= e -> e <= len l ->
  len (take (Z.to_nat (e - b)) (drop (Z.to_nat b) l)) = e - b.
Proof.
  unfold len. intros Hb He. rewrite length_take, length_drop. lia.
Qed.

(** X10.  Without a mark (the value -1 that [resetSelection] leaves) the
    region [getSelectionPos] answers runs from the start of the line to the
    rune under the cursor, that rune included. *)
Theorem getSelectionPos_without_mark (rl : Instance) :
  cursor_ok rl ->
  mark rl = -1 ->
  visualLine rl = false ->
  getSelectionPos rl
  = Some (0, Z.min (pos rl + 1) (len (line rl)), 0).
Proof.
  unfold cursor_ok, getSelectionPos. intros Hok -> ->.
  destruct (Z.ltb_spec (-1) (pos rl)); [|lia].
  destruct (Z.gtb_spec (pos rl + 1) (len (line rl) - 1)); simpl;
    repeat f_equal; lia.
Qed.

Lemma getSelectionPos_without_mark_witness :
  getSelectionPos (session (str "abcdef") 2) = Some (0, 3, 0).
Proof.
  rewrite (getSelectionPos_without_mark (session (str "abcdef") 2)).
  - reflexivity.
  - unfold cursor_ok, len. simpl. lia.
  - reflexivity.
  - reflexivity.
Defined.

Lemma popSelection_Done (rl : Instance) (bpos epos cpos : Z) :
  cursor_ok rl ->
  getSelectionPos rl = Some (bpos, epos, cpos) ->
  popSelection rl
  = Done (string_of_runes
            (take (Z.to_nat (epos - bpos)) (drop (Z.to_nat bpos) (line rl))),
          bpos, epos, cpos)
         (set_mark (-1) false rl).
Proof.
  intros Hok Hsel.
  destruct (getSelectionPos_bounds rl bpos epos cpos Hok Hsel) as (Hb & He & _).
  unfold popSelection, bind, try, ret, resetSelection, modify.
  rewrite Hsel. rewrite slice_in_range by lia. reflexivity.
Qed.

Lemma insertBlock_Done (bpos epos : Z) (word surround : gostring) (rl : Instance) :
  0 <= bpos <= epos -> epos <= len (line rl) ->
  insertBlock bpos epos word surround rl
  = Done tt (set_line (string_of_runes (take (Z.to_nat bpos) (line rl))
                       ++ (surround ++ word ++ surround)
                       ++ string_of_runes (drop (Z.to_nat epos) (line rl))) rl).
Proof.
  intros Hb He.
  unfold insertBlock, bind, try, ret, modify.
  rewrite slice_to_in_range by lia. rewrite slice_from_in_range by lia.
  unfold runes_of_string.
  assert (Hword : (if negb (string_eqb surround [])
                   then surround ++ word ++ surround else word)
                  = surround ++ word ++ surround).
  { destruct surround; [simpl; by rewrite app_nil_r|done]. }
  rewrite Hword. by rewrite <- app_assoc.
Qed.

(** X11.  Whenever [getSelectionPos] answers a region, [popSelection]
    returns the text of that region without a fault, leaves the line and the
    cursor alone, and leaves no mark and no active region behind. *)
Theorem popSelection_extracts_region (rl : Instance) (bpos epos cpos : Z) :
  cursor_ok rl ->
  getSelectionPos rl = Some (bpos, epos, cpos) ->
  exists s rl',
    popSelection rl = Done (s, bpos, epos, cpos) rl' /\
    s = string_of_runes
          (take (Z.to_nat (epos - bpos)) (drop (Z.to_nat bpos) (line rl))) /\
    len s = epos - bpos /\
    line rl' = line rl /\ pos rl' = pos rl /\
    mark rl' = -1 /\ activeRegion rl' = false.
Proof.
  intros Hok Hsel.
  destruct (getSelectionPos_bounds rl bpos epos cpos Hok Hsel) as (Hb & He & _).
  rewrite (popSelection_Done rl bpos epos cpos Hok Hsel).
  eexists _, _. split; [reflexivity|]. split; [reflexivity|].
  split; [|done].
  rewrite len_string_of_runes. by apply len_take_drop.
Qed.

Lemma popSelection_extracts_region_witness :
  exists rl', popSelection (set_mark 0 true (session (str "abcdef") 4))
              = Done (str "abcde", 0, 5, 0) rl'.
Proof.
  destruct (popSelection_extracts_region
              (set_mark 0 true (session (str "abcdef") 4)) 0 5 0)
    as (s & rl' & Hpop & Hs & _).
  - unfold cursor_ok, len. simpl. lia.
  - reflexivity.
  - exists rl'. rewrite Hpop, Hs. reflexivity.
Defined.

(** X12.  [insertBlock] replaces the runes of [bpos, epos) by the word
    (between two copies of the surround, when there is one) and keeps what
    is before and after it; the runes it keeps go through a conversion to a
    string, which turns code points UTF-8 cannot encode into U+FFFD.  The
    cursor is not moved. *)
Theorem insertBlock_replaces_span (bpos epos : Z) (word surround : gostring)
    (rl : Instance) :
  0 <= bpos <= epos -> epos <= len (line rl) ->
  let after := final (insertBlock bpos epos word surround rl) in
  faulted (insertBlock bpos epos word surround rl) = false /\
  line after
  = string_of_runes (take (Z.to_nat bpos) (line rl))
    ++ (surround ++ word ++ surround)
    ++ string_of_runes (drop (Z.to_nat epos) (line rl)) /\
  len (line after)
  = len (line rl) - (epos - bpos) + len word + 2 * len surround /\
  pos after = pos rl.
Proof.
  intros Hb He.
  rewrite (insertBlock_Done bpos epos word surround rl Hb He).
  cbn [final faulted line pos set_line].
  split; [done|]. split; [done|]. split; [|done].
  rewrite !len_app, !len_string_of_runes, len_take, len_drop by lia. lia.
Qed.

Lemma insertBlock_replaces_span_witness :
  line (final (insertBlock 4 7 (str "BAR") [chr "'"] (session (str "foo bar baz") 0)))
  = str "foo 'BAR' baz".
Proof.
  destruct (insertBlock_replaces_span 4 7 (str "BAR") [chr "'"]
              (session (str "foo bar baz") 0)) as (_ & Hline & _).
  - lia.
  - unfold len. simpl. lia.
  - rewrite Hline. reflexivity.
Defined.

(** X13.  Writing a popped selection back restores the line: [popSelection]
    followed by [insertBlock] at the bounds it returned, with the text it
    returned and no surround, gives the line converted to a string and back,
    which is the line itself when UTF-8 can encode all its code points. *)
Theorem popSelection_insertBlock_round_trip (rl : Instance) (bpos epos cpos : Z) :
  cursor_ok rl ->
  getSelectionPos rl = Some (bpos, epos, cpos) ->
  exists s rl1,
    popSelection rl = Done (s, bpos, epos, cpos) rl1 /\
    faulted (insertBlock bpos epos s [] rl1) = false /\
    line (final (insertBlock bpos epos s [] rl1)) = string_of_runes (line rl) /\
    (valid_line (line rl) ->
     line (final (insertBlock bpos epos s [] rl1)) = line rl).
Proof.
  intros Hok Hsel.
  destruct (getSelectionPos_bounds rl bpos epos cpos Hok Hsel) as (Hb & He & _).
  eexists _, _. split; [exact (popSelection_Done rl bpos epos cpos Hok Hsel)|].
  rewrite insertBlock_Done by (cbn [line set_mark]; lia).
  cbn [final faulted line set_line set_mark].
  split; [done|].
  assert (Hround : forall s : gostring, [] ++ s ++ [] = s)
    by (intros s; simpl; apply app_nil_r).
  rewrite Hround, <- !string_of_runes_app, take_mid_drop by lia.
  split; [done|]. intros Hvalid. by apply string_of_runes_valid.
Qed.

Lemma popSelection_insertBlock_round_trip_witness :
  exists s rl1,
    popSelection (set_mark 0 true (session (str "abcdef") 4))
      = Done (s, 0, 5, 0) rl1 /\
    line (final (insertBlock 0 5 s [] rl1)) = str "abcdef".
Proof.
  destruct (popSelection_insertBlock_round_trip
              (set_mark 0 true (session (str "abcdef") 4)) 0 5 0)
    as (s & rl1 & Hpop & _ & Hline & _).
  - unfold cursor_ok, len. simpl. lia.
  - reflexivity.
  - exists s, rl1. split; [exact Hpop|]. rewrite Hline. reflexivity.
Defined.

(** X14.  [deleteSelection] removes the runes of the region and nothing
    else, puts the cursor at the begin of the region, which is inside the
    new line, and leaves no mark.  [saveBufToRegister] is taken not to write
    the line. *)
Theorem deleteSelection_removes_region (c : Collaborators) (rl : Instance)
    (bpos epos cpos : Z) :
  (forall buf rl0, line (saveBufToRegister c buf rl0) = line rl0) ->
  cursor_ok rl ->
  getSelectionPos rl = Some (bpos, epos, cpos) ->
  let after := final (deleteSelection c rl) in
  faulted (deleteSelection c rl) = false /\
  line after = take (Z.to_nat bpos) (line rl) ++ drop (Z.to_nat epos) (line rl) /\
  len (line after) = len (line rl) - (epos - bpos) /\
  pos after = bpos /\
  cursor_ok after /\
  mark after = -1 /\ activeRegion after = false.
Proof.
  intros Hsave Hok Hsel.
  destruct (getSelectionPos_bounds rl bpos epos cpos Hok Hsel) as (Hb & He & ->).
  unfold deleteSelection, bind, try, ret, resetSelection, modify.
  rewrite Hsel. rewrite slice_in_range by lia.
  match goal with
  | |- context [saveBufToRegister c ?buf rl] =>
      set (rl1 := saveBufToRegister c buf rl);
      assert (Hl1 : line rl1 = line rl) by apply Hsave
  end.
  clearbody rl1.
  rewrite slice_to_in_range by (rewrite ?Hl1; lia).
  rewrite slice_from_in_range by (rewrite ?Hl1; lia).
  cbn [final faulted line pos mark activeRegion set_line set_pos set_mark].
  rewrite Hl1.
  assert (Hlen : len (take (Z.to_nat bpos) (line rl)
                      ++ drop (Z.to_nat epos) (line rl))
                 = len (line rl) - (epos - bpos)).
  { rewrite len_app, len_take, len_drop by lia. lia. }
  split; [done|]. split; [done|]. split; [done|]. split; [done|].
  split; [|done]. unfold cursor_ok.
  cbn [line pos set_line set_pos set_mark]. rewrite Hlen. lia.
Qed.

Lemma deleteSelection_removes_region_witness :
  line (final (deleteSelection (mkCollaborators (fun _ rl => rl) (fun _ rl => rl))
                 (set_mark 1 true (session (str "abcdef") 3))))
  = str "aef".
Proof.
  destruct (deleteSelection_removes_region
              (mkCollaborators (fun _ rl => rl) (fun _ rl => rl))
              (set_mark 1 true (session (str "abcdef") 3)) 1 4 1)
    as (_ & Hline & _).
  - reflexivity.
  - unfold cursor_ok, len. simpl. lia.
  - reflexivity.
  - rewrite Hline. reflexivity.
Defined.

(** X15.  [quoteRegion] puts a quote before and after the region: the line
    grows by two runes, the cursor goes behind the opening quote and stays
    inside the line, and no mark is left. *)
Theorem quoteRegion_quotes_region (rl : Instance) (bpos epos cpos : Z) :
  cursor_ok rl ->
  getSelectionPos rl = Some (bpos, epos, cpos) ->
  let after := final (quoteRegion rl) in
  faulted (quoteRegion rl) = false /\
  line after
  = string_of_runes (take (Z.to_nat bpos) (line rl))
    ++ [chr "'"]
    ++ string_of_runes (take (Z.to_nat (epos - bpos)) (drop (Z.to_nat bpos) (line rl)))
    ++ [chr "'"]
    ++ string_of_runes (drop (Z.to_nat epos) (line rl)) /\
  len (line after) = len (line rl) + 2 /\
  pos after = bpos + 1 /\
  cursor_ok after /\
  mark after = -1.
Proof.
  intros Hok Hsel.
  destruct (getSelectionPos_bounds rl bpos epos cpos Hok Hsel) as (Hb & He & ->).
  unfold quoteRegion, insertSelection, undoHistoryAppend, bind, try, ret,
    resetSelection, modify.
  match goal with
  | |- context [set_undo ?u ?k rl] =>
      set (rl1 := set_undo u k rl);
      assert (Hl1 : line rl1 = line rl) by reflexivity;
      assert (Hsel1 : getSelectionPos rl1 = Some (bpos, epos, bpos))
        by exact Hsel
  end.
  clearbody rl1.
  rewrite Hsel1.
  rewrite slice_in_range by (rewrite ?Hl1; lia).
  rewrite slice_to_in_range by (rewrite ?Hl1; lia).
  rewrite slice_from_in_range by (rewrite ?Hl1; lia).
  cbn [final faulted line pos mark set_line set_pos set_mark snd negb string_eqb].
  rewrite Hl1. unfold runes_of_string.
  set (pre := string_of_runes (take (Z.to_nat bpos) (line rl))).
  set (mid := string_of_runes (take _ (drop _ (line rl)))).
  set (suf := string_of_runes (drop (Z.to_nat epos) (line rl))).
  split; [done|]. split; [by rewrite <- !app_assoc|].
  match goal with
  | |- len ?t = _ /\ _ => assert (Hlen : len t = len (line rl) + 2)
  end.
  { rewrite !len_app. unfold pre, mid, suf.
    rewrite !len_string_of_runes, len_take_drop, len_take, len_drop by lia.
    change (len [chr "'"]) with 1. lia. }
  split; [done|]. split; [done|]. split; [|done].
  unfold cursor_ok. cbn [line pos set_line set_pos set_mark].
  rewrite Hlen. lia.
Qed.

Lemma quoteRegion_quotes_region_witness :
  line (final (quoteRegion (set_mark 4 true (session (str "foo bar baz") 6))))
  = str "foo 'bar' baz".
Proof.
  destruct (quoteRegion_quotes_region
              (set_mark 4 true (session (str "foo bar baz") 6)) 4 7 4)
    as (_ & Hline & _).
  - unfold cursor_ok, len. simpl. lia.
  - reflexivity.
  - rewrite Hline. reflexivity.
Defined.
(** ** Transposition of two runes *)

Lemma store_in_range {A} (l : list A) (i : Z) (x : A) :
  0 <= i < len l -> store l i x = Some (<[Z.to_nat i := x]> l).
Proof.
  intros H. unfold store.
  destruct (Z.leb_spec 0 i); [|lia]. destruct (Z.ltb_spec i (len l)); [|lia].
  reflexivity.
Qed.

Lemma len_insert {A} (l : list A) (i : nat) (x : A) : len (<[i := x]> l) = len l.
Proof. unfold len. by rewrite length_insert. Qed.

Lemma transposeChars_swaps (rl : Instance) :
  cursor_ok rl ->
  2 <= pos rl ->
  transposeChars rl
  = Done tt (set_line (swap_adjacent (line rl) (Z.to_nat (transposed_index rl))) rl).
Proof.
  unfold cursor_ok. intros Hok Hpos.
  unfold transposeChars, transposed_index, bind, get, try, ret, modify,
    skipUndoAppend.
  destruct (Z.ltb_spec (pos rl) 2); [lia|].
  destruct (Z.ltb_spec (len (line rl)) 2); [lia|]. cbn [orb].
  destruct (Z.eqb_spec (pos rl) (len (line rl))) as [Hend|Hmid].
  - destruct (index_in_range (line rl) (pos rl - 1) ltac:(lia)) as [x Hx].
    destruct (index_in_range (line rl) (pos rl - 2) ltac:(lia)) as [y Hy].
    rewrite Hx, Hy.
    rewrite store_in_range by lia. cbn [line set_line].
    rewrite store_in_range by (rewrite len_insert; lia).
    unfold swap_adjacent.
    rewrite index_lookup in Hx, Hy by lia.
    replace (Z.to_nat (pos rl - 1) - 1)%nat with (Z.to_nat (pos rl - 2)) by lia.
    rewrite Hx, Hy. by destruct rl.
  - destruct (index_in_range (line rl) (pos rl) ltac:(lia)) as [x Hx].
    destruct (index_in_range (line rl) (pos rl - 1) ltac:(lia)) as [y Hy].
    rewrite Hx, Hy.
    rewrite store_in_range by lia. cbn [line set_line].
    rewrite store_in_range by (rewrite len_insert; lia).
    unfold swap_adjacent.
    rewrite index_lookup in Hx, Hy by lia.
    replace (Z.to_nat (pos rl) - 1)%nat with (Z.to_nat (pos rl - 1)) by lia.
    rewrite Hx, Hy. by destruct rl.
Qed.

Lemma swap_adjacent_length (l : list rune) (k : nat) :
  length (swap_adjacent l k) = length l.
Proof.
  unfold swap_adjacent.
  destruct (l !! (k - 1)%nat), (l !! k); try done.
  by rewrite !length_insert.
Qed.

Lemma swap_adjacent_lookup (l : list rune) (k : nat) :
  (1 <= k < length l)%nat ->
  swap_adjacent l k !! k = l !! (k - 1)%nat /\
  swap_adjacent l k !! (k - 1)%nat = l !! k /\
  forall i, i <> k -> i <> (k - 1)%nat -> swap_adjacent l k !! i = l !! i.
Proof.
  intros Hk. unfold swap_adjacent.
  destruct (lookup_lt_is_Some_2 l (k - 1)%nat ltac:(lia)) as [x Hx].
  destruct (lookup_lt_is_Some_2 l k ltac:(lia)) as [y Hy].
  rewrite Hx, Hy. split; [|split].
  - rewrite list_lookup_insert_eq; [done|]. rewrite length_insert. lia.
  - rewrite list_lookup_insert_ne by lia.
    rewrite list_lookup_insert_eq; [done|lia].
  - intros i Hik Hik1. by rewrite !list_lookup_insert_ne by lia.
Qed.

Lemma swap_adjacent_involutive (l : list rune) (k : nat) :
  (1 <= k < length l)%nat -> swap_adjacent (swap_adjacent l k) k = l.
Proof.
  intros Hk. apply list_eq. intros i.
  assert (Hk' : (1 <= k < length (swap_adjacent l k))%nat)
    by (by rewrite swap_adjacent_length).
  destruct (swap_adjacent_lookup l k Hk) as (H1 & H2 & H3).
  destruct (swap_adjacent_lookup (swap_adjacent l k) k Hk') as (K1 & K2 & K3).
  destruct (decide (i = k)) as [->|Hik]; [congruence|].
  destruct (decide (i = (k - 1)%nat)) as [->|Hik1]; [congruence|].
  rewrite K3, H3 by done. done.
Qed.

(** X16.  [transposeChars] never faults on a session whose cursor is inside
    the line; it keeps the cursor and the length of the line; with the
    cursor before the third position it changes nothing, otherwise it
    exchanges two neighbouring runes (the two before the cursor at the end
    of the line, else the one under the cursor and the one before it) and
    touches no other; a second call undoes the first. *)
Theorem transposeChars_involutive (rl : Instance) :
  cursor_ok rl ->
  let after := final (transposeChars rl) in
  let k := transposed_index rl in
  faulted (transposeChars rl) = false /\
  pos after = pos rl /\
  len (line after) = len (line rl) /\
  (pos rl < 2 -> line after = line rl) /\
  (2 <= pos rl ->
     index (line after) k = index (line rl) (k - 1) /\
     index (line after) (k - 1) = index (line rl) k /\
     forall i, i <> k -> i <> k - 1 -> index (line after) i = index (line rl) i) /\
  faulted (transposeChars after) = false /\
  line (final (transposeChars after)) = line rl.
Proof.
  intros Hok after k.
  destruct (Z.lt_ge_cases (pos rl) 2) as [Hshort|Hlong].
  - assert (Hrun : forall s, pos s = pos rl -> line s = line rl ->
               faulted (transposeChars s) = false /\
               line (final (transposeChars s)) = line rl /\
               pos (final (transposeChars s)) = pos rl).
    { intros s Hp Hl.
      unfold transposeChars, bind, get, skipUndoAppend, modify.
      rewrite Hp. destruct (Z.ltb_spec (pos rl) 2); [|lia]. cbn [orb]. done. }
    destruct (Hrun rl eq_refl eq_refl) as (Hf & Hl & Hp).
    fold after in Hl, Hp.
    destruct (Hrun after Hp Hl) as (Hf2 & Hl2 & _).
    split; [done|]. split; [done|]. split; [by rewrite Hl|].
    split; [done|]. split; [lia|]. done.
  - assert (Hk : (1 <= Z.to_nat k < length (line rl))%nat).
    { unfold k, transposed_index. unfold cursor_ok, len in Hok.
      destruct (Z.eqb_spec (pos rl) (len (line rl))) as [He|He];
        unfold len in He; lia. }
    assert (Hafter : after
              = set_line (swap_adjacent (line rl) (Z.to_nat k)) rl).
    { unfold after. by rewrite transposeChars_swaps. }
    assert (Hlen : len (line after) = len (line rl)).
    { rewrite Hafter. cbn [line set_line]. unfold len.
      by rewrite swap_adjacent_length. }
    assert (Hok' : cursor_ok after).
    { unfold cursor_ok. rewrite Hlen, Hafter. exact Hok. }
    assert (Hk2 : transposed_index after = k).
    { unfold transposed_index. rewrite Hlen. by rewrite Hafter. }
    split; [by rewrite transposeChars_swaps|].
    split; [by rewrite Hafter|]. split; [done|]. split; [lia|].
    split; [|split].
    + intros _.
      destruct (swap_adjacent_lookup (line rl) (Z.to_nat k) Hk) as (H1 & H2 & H3).
      rewrite Hafter. cbn [line set_line]. split; [|split].
      * rewrite !index_lookup by lia. rewrite H1. f_equal. lia.
      * rewrite !index_lookup by lia.
        replace (Z.to_nat (k - 1)) with (Z.to_nat k - 1)%nat by lia. done.
      * intros i Hik Hik1. unfold index.
        destruct (Z.leb_spec 0 i); [|done]. apply H3; lia.
    + rewrite transposeChars_swaps; [done|done|by rewrite Hafter].
    + rewrite transposeChars_swaps; [|done|by rewrite Hafter].
      cbn [final line set_line]. rewrite Hk2, Hafter. cbn [line set_line].
      by apply swap_adjacent_involutive.
Qed.

Lemma transposeChars_involutive_witness :
  line (final (transposeChars (session (str "abcd") 2))) = str "acbd" /\
  line (final (transposeChars (final (transposeChars (session (str "abcd") 2)))))
  = str "abcd".
Proof.
  destruct (transposeChars_involutive (session (str "abcd") 2))
    as (_ & _ & _ & _ & _ & _ & Htwice).
  - unfold cursor_ok, len. simpl. lia.
  - split; [reflexivity|exact Htwice].
Defined.
(** ** Insertion at the cursor *)



(** ** Quoting the line *)

Lemma quoteLine_loop_head (ln : list rune) :
  forall q rest, quoteLine_loop ln = q :: rest -> q <> chr "'".
Proof.
  destruct ln as [|r ln]; [done|]. simpl.
  destruct (Z.eqb_spec r 10); [done|].
  destruct (Z.eqb_spec r (chr "'")); intros q rest [= <- _]; [done|done].
Qed.

Lemma unescape_quoteLine_loop (ln : list rune) :
  unescape (quoteLine_loop ln) = before_newline ln.
Proof.
  induction ln as [|r ln IH]; [done|]. simpl quoteLine_loop. simpl before_newline.
  destruct (Z.eqb_spec r 10); [done|].
  destruct (Z.eqb_spec r (chr "'")) as [->|Hq].
  - simpl. by rewrite IH.
  - rewrite <- IH.
    destruct (quoteLine_loop ln) as [|q rest] eqn:Hloop; [done|].
    pose proof (quoteLine_loop_head ln q rest Hloop) as Hhead.
    change (unescape (r :: q :: rest))
      with (if (r =? chr "\") && (q =? chr "'") then q :: unescape rest
            else r :: unescape (q :: rest)).
    destruct (Z.eqb_spec q (chr "'")); [done|]. by rewrite andb_false_r.
Qed.

Lemma quoteLine_loop_no_newline (ln : list rune) :
  Forall (fun r => r <> 10) (quoteLine_loop ln).
Proof.
  induction ln as [|r ln IH]; [constructor|]. simpl.
  destruct (Z.eqb_spec r 10); [constructor|].
  destruct (Z.eqb_spec r (chr "'")) as [->|].
  - repeat constructor; done.
  - by constructor.
Qed.

Lemma quoteLine_loop_length (ln : list rune) :
  Forall (fun r => r <> 10) ln -> (length ln <= length (quoteLine_loop ln))%nat.
Proof.
  induction 1 as [|r ln Hr _ IH]; [done|]. simpl.
  destruct (Z.eqb_spec r 10); [done|].
  destruct (Z.eqb_spec r (chr "'")); simpl; lia.
Qed.

(** X18.  [quoteLine] writes the text of the line up to its first newline
    between two quotes, with a backslash before every quote of the text:
    undoing the escapes in what stands between the two outer quotes gives
    that text back.  Nothing of the line from its first newline on is kept.
    The cursor is not moved. *)
Theorem quoteLine_unescape_round_trip (rl : Instance) :
  let after := final (quoteLine rl) in
  exists body,
    faulted (quoteLine rl) = false /\
    line after = chr "'" :: body ++ [chr "'"] /\
    unescape body = before_newline (line rl) /\
    Forall (fun r => r <> 10) body /\
    pos after = pos rl.
Proof.
  exists (quoteLine_loop (line rl)).
  split; [done|]. split; [done|].
  split; [apply unescape_quoteLine_loop|].
  split; [apply quoteLine_loop_no_newline|done].
Qed.

(** X19.  On a line without a newline [quoteLine] keeps the cursor inside
    the line. *)
Theorem quoteLine_cursor_ok (rl : Instance) :
  cursor_ok rl ->
  Forall (fun r => r <> 10) (line rl) ->
  cursor_ok (final (quoteLine rl)).
Proof.
  unfold cursor_ok. intros Hok Hnl.
  pose proof (quoteLine_loop_length (line rl) Hnl) as Hlen.
  unfold quoteLine, modify. cbn [final line pos set_line].
  unfold len in *. simpl. rewrite length_app. simpl. lia.
Qed.

Lemma quoteLine_cursor_ok_witness :
  cursor_ok (final (quoteLine (session (str "it's") 4))).
Proof.
  apply (quoteLine_cursor_ok (session (str "it's") 4)).
  - unfold cursor_ok, len. simpl. lia.
  - repeat constructor; discriminate.
Defined.

(** A line with a newline: the quoted line is shorter than the cursor. *)
Example quoteLine_cuts_at_newline :
  let after := final (quoteLine (session [10; 97; 98; 99] 4)) in
  line after = str "''" /\ pos after = 4.
Proof. split; reflexivity. Qed.

(** ** Mark and cursor *)

Lemma getIterations_no_argument (a : Iterations) :
  iterations a = [] ->
  getIterations a = (1, mkIterations [] (negativeArg a) (mainIsEmacs a)).
Proof.
  intros H. unfold getIterations. rewrite H. simpl.
  by destruct (mainIsEmacs a).
Qed.

(** X20.  Without a pending numeric argument, [exchangePointAndMark]
    exchanges the cursor and the mark and activates the region, and a second
    call brings both back.  (The cursor it sets is the old mark, whatever
    the line has become since the mark was set.) *)
Theorem exchangePointAndMark_twice (rl : Instance) (a : Iterations) :
  cursor_ok rl ->
  mark rl <> -1 ->
  iterations a = [] ->
  let once := exchangePointAndMark rl a in
  let twice := exchangePointAndMark (fst once) (snd once) in
  pos (fst once) = mark rl /\ mark (fst once) = pos rl /\
  activeRegion (fst once) = true /\
  pos (fst twice) = pos rl /\ mark (fst twice) = mark rl /\
  line (fst twice) = line rl /\
  iterations (snd twice) = [].
Proof.
  unfold cursor_ok. intros Hok Hmark Ha.
  assert (Hstep : forall s b, iterations b = [] -> mark s <> -1 ->
            exchangePointAndMark s b
            = (set_mark (pos s) true
                 (set_pos (mark s) (final (skipUndoAppend s))),
               mkIterations [] (negativeArg b) (mainIsEmacs b))).
  { intros s b Hb Hs. unfold exchangePointAndMark.
    rewrite (getIterations_no_argument b Hb).
    change (mark (final (skipUndoAppend s))) with (mark s).
    destruct (Z.eqb_spec (mark s) (-1)); [done|]. reflexivity. }
  rewrite (Hstep rl a Ha Hmark). cbn [fst snd].
  rewrite Hstep; [|done|cbn; lia].
  cbn. done.
Qed.

Lemma exchangePointAndMark_twice_witness :
  let once := exchangePointAndMark (set_mark 1 true (session (str "abcdef") 4))
                (mkIterations [] false true) in
  pos (fst once) = 1 /\
  pos (fst (exchangePointAndMark (fst once) (snd once))) = 4.
Proof.
  destruct (exchangePointAndMark_twice
              (set_mark 1 true (session (str "abcdef") 4))
              (mkIterations [] false true))
    as (H1 & _ & _ & H2 & _).
  - unfold cursor_ok, len. simpl. lia.
  - simpl. lia.
  - reflexivity.
  - split; [exact H1|exact H2].
Defined.
(** ** History walks *)

Lemma walkHistory_unfold (h : Helpers) (delta : Z) (rl : Instance)
    (name : string) (history : History) :
  index (historyNames rl) 0 = Some name ->
  histories rl !! name = Some history ->
  Len history <> 0 ->
  walkHistory h delta rl =
  let s := walk_reached history delta rl in
  if histPos s >? 0 then
    match GetLine history (Len history - histPos s) with
    | None => Fault s
    | Some res =>
        match snd res with
        | Some err =>
            Done tt (print (prompt (resetHelpers h s))
                       (print (String.append crlf (String.append err crlf))
                          (resetHelpers h s)))
        | None =>
            Done tt (set_pos (len (runes_of_string (fst res)))
                       (set_line (runes_of_string (fst res)) (clearLine h s)))
        end
    end
  else Done tt s.
Proof.
  intros Hname Hhist Hlen.
  unfold walkHistory, bind, modify, try, get, ret.
  rewrite (currentHistory_first name history rl Hname Hhist).
  destruct (Z.eqb_spec (Len history) 0) as [|_]; [done|].
  cbv zeta. fold (walk_reached history delta rl).
  destruct (histPos (walk_reached history delta rl) >? 0); [|reflexivity].
  destruct (GetLine history _) as [[next [err|]]|]; reflexivity.
Qed.

Lemma walk_reached_histPos (history : History) (delta : Z) (rl : Instance) :
  histPos (walk_reached history delta rl) = walk_position history rl delta.
Proof.
  unfold walk_reached, walk_position. cbv zeta.
  cbn [histPos set_hist].
  destruct ((histPos rl =? 0) && (histPos rl + delta =? 1)); cbn [histPos set_hist];
    destruct (histPos rl + delta >? Len history); cbn [histPos set_hist];
    try reflexivity;
    destruct (histPos rl + delta <? 0); cbn [histPos set_hist]; try reflexivity;
    destruct (histPos rl + delta =? 0) eqn:H0; cbn [histPos set_hist set_pos set_line];
    reflexivity.
Qed.

Lemma walk_position_range (history : History) (rl : Instance) (delta : Z) :
  0 < Len history ->
  0 <= walk_position history rl delta <= Len history.
Proof.
  intros Hlen. unfold walk_position. cbv zeta.
  destruct (Z.gtb_spec (histPos rl + delta) (Len history)); [lia|].
  destruct (Z.ltb_spec (histPos rl + delta) 0); lia.
Qed.

(** X21.  After a walk through a history that has entries, the history
    index lies between 0 and the number of entries, for every step [delta]
    and every index before the walk, and whether the walk ends with a line,
    with an error of the backend or with its panic.  [clearLine] and
    [resetHelpers] are taken to leave the history state alone. *)
Theorem walkHistory_index_in_range (h : Helpers) (delta : Z) (rl : Instance)
    (name : string) (history : History) :
  keeps_history (clearLine h) ->
  keeps_history (resetHelpers h) ->
  index (historyNames rl) 0 = Some name ->
  histories rl !! name = Some history ->
  0 < Len history ->
  0 <= histPos (final (walkHistory h delta rl)) <= Len history.
Proof.
  intros Hclear Hreset Hname Hhist Hlen.
  pose proof (walk_position_range history rl delta Hlen) as Hrange.
  rewrite <- walk_reached_histPos in Hrange.
  rewrite (walkHistory_unfold h delta rl name history Hname Hhist) by lia.
  cbv zeta. set (s := walk_reached history delta rl) in *.
  destruct (histPos s >? 0); [|exact Hrange].
  destruct (GetLine history _) as [[next [err|]]|]; cbn [snd fst final].
  - cbn [histPos print]. by rewrite (proj1 (Hreset s)).
  - cbn [histPos set_pos set_line]. by rewrite (proj1 (Hclear s)).
  - exact Hrange.
Qed.

Lemma plainHelpers_keep_history :
  keeps_history (clearLine plainHelpers) /\ keeps_history (resetHelpers plainHelpers).
Proof. split; intros rl; done. Qed.

Lemma walkHistory_index_in_range_witness :
  0 <= histPos (final (walkHistory plainHelpers 5
                         (history_session (str "abc") 2
                            (MemoryHistory [str "ls"; str "pwd"])))) <= 2.
Proof.
  apply (walkHistory_index_in_range plainHelpers 5
           (history_session (str "abc") 2 (MemoryHistory [str "ls"; str "pwd"]))
           "db" (MemoryHistory [str "ls"; str "pwd"])).
  - apply plainHelpers_keep_history.
  - apply plainHelpers_keep_history.
  - reflexivity.
  - reflexivity.
  - simpl. unfold len. simpl. lia.
Defined.

Lemma walkHistory_memory_step (h : Helpers) (delta : Z) (rl : Instance)
    (name : string) (items : list gostring) :
  index (historyNames rl) 0 = Some name ->
  histories rl !! name = Some (MemoryHistory items) ->
  0 < walk_position (MemoryHistory items) rl delta ->
  exists next,
    index items (len items - walk_position (MemoryHistory items) rl delta)
      = Some next /\
    walkHistory h delta rl
    = Done tt (set_pos (len next)
                 (set_line next
                    (clearLine h (walk_reached (MemoryHistory items) delta rl)))).
Proof.
  intros Hname Hhist Hk.
  assert (Hlen : 0 < Len (MemoryHistory items)).
  { unfold walk_position in Hk. cbv zeta in Hk.
    destruct (Z.gtb_spec (histPos rl + delta) (Len (MemoryHistory items)));
      [exact Hk|].
    simpl. pose proof (len_nonneg items).
    destruct (Z.ltb_spec (histPos rl + delta) 0); [lia|].
    simpl in *. lia. }
  pose proof (walk_position_range (MemoryHistory items) rl delta Hlen) as Hrange.
  rewrite <- walk_reached_histPos in Hrange, Hk |- *.
  rewrite (walkHistory_unfold h delta rl name (MemoryHistory items) Hname Hhist)
    by lia.
  cbv zeta. set (s := walk_reached (MemoryHistory items) delta rl) in *.
  destruct (Z.gtb_spec (histPos s) 0); [|lia].
  change (Len (MemoryHistory items)) with (len items) in *.
  destruct (index_in_range items (len items - histPos s) ltac:(lia)) as [next Hnext].
  exists next. split; [exact Hnext|].
  cbn [GetLine MemoryHistory]. rewrite Hnext. reflexivity.
Qed.

(** X22.  A walk through the in-memory history never runs into the panic of
    its unchecked [GetLine]: for every step that arrives at an index [k]
    above 0 the walk returns, the line is the entry [k] places from the end
    of the history, and the cursor is at the end of that line. *)
Theorem walkHistory_memory_history (h : Helpers) (delta : Z) (rl : Instance)
    (name : string) (items : list gostring) :
  index (historyNames rl) 0 = Some name ->
  histories rl !! name = Some (MemoryHistory items) ->
  0 < walk_position (MemoryHistory items) rl delta ->
  let after := final (walkHistory h delta rl) in
  faulted (walkHistory h delta rl) = false /\
  index items (len items - walk_position (MemoryHistory items) rl delta)
    = Some (line after) /\
  pos after = len (line after) /\
  cursor_ok after.
Proof.
  intros Hname Hhist Hk.
  destruct (walkHistory_memory_step h delta rl name items Hname Hhist Hk)
    as (next & Hnext & Hwalk).
  rewrite Hwalk, Hnext. cbn [final faulted].
  unfold cursor_ok. cbn [line pos set_pos set_line].
  pose proof (len_nonneg next). repeat split; try done; lia.
Qed.

Lemma walkHistory_memory_history_witness :
  line (final (walkHistory plainHelpers 1
                 (history_session (str "abc") 2
                    (MemoryHistory [str "ls"; str "pwd"])))) = str "pwd".
Proof.
  destruct (walkHistory_memory_history plainHelpers 1
              (history_session (str "abc") 2 (MemoryHistory [str "ls"; str "pwd"]))
              "db" [str "ls"; str "pwd"]) as (_ & Hline & _).
  - reflexivity.
  - reflexivity.
  - vm_compute. reflexivity.
  - match goal with
    | |- ?l = ?r => enough (Hsome : Some l = Some r) by congruence
    end.
    rewrite <- Hline. reflexivity.
Defined.

(** X23.  What was written last is what the first step back shows: after
    [Write(s)] to the in-memory history, a walk of one step from the line
    being typed puts [s] on the line and the cursor at its end. *)
Theorem walkHistory_shows_last_written (h : Helpers) (rl : Instance)
    (name : string) (items : list gostring) (s : gostring) :
  index (historyNames rl) 0 = Some name ->
  histories rl !! name = Some (MemoryHistory (fst (MemoryHistory_Write items s))) ->
  histPos rl = 0 ->
  let after := final (walkHistory h 1 rl) in
  faulted (walkHistory h 1 rl) = false /\
  line after = s /\
  pos after = len s.
Proof.
  intros Hname Hhist Hpos.
  unfold MemoryHistory_Write in *. cbn [fst] in *.
  assert (Hk : walk_position (MemoryHistory (items ++ [s])) rl 1 = 1).
  { unfold walk_position. cbv zeta. rewrite Hpos.
    change (Len (MemoryHistory (items ++ [s]))) with (len (items ++ [s])).
    rewrite len_app. change (len [s]) with 1. pose proof (len_nonneg items).
    destruct (Z.gtb_spec (0 + 1) (len items + 1)); [lia|].
    destruct (Z.ltb_spec (0 + 1) 0); lia. }
  destruct (walkHistory_memory_step h 1 rl name (items ++ [s]) Hname Hhist)
    as (next & Hline & Hwalk); [lia|].
  rewrite Hk in Hline.
  assert (Hlast : index (items ++ [s]) (len (items ++ [s]) - 1) = Some s).
  { rewrite len_app. change (len [s]) with 1. pose proof (len_nonneg items).
    rewrite index_lookup by lia.
    replace (Z.to_nat (len items + 1 - 1)) with (length items + 0)%nat
      by (unfold len; lia).
    by rewrite lookup_app_r, Nat.add_comm, Nat.add_sub by lia. }
  rewrite Hlast in Hline. injection Hline as <-.
  rewrite Hwalk. cbn [final faulted line pos set_pos set_line]. done.
Qed.

Lemma walkHistory_shows_last_written_witness :
  line (final (walkHistory plainHelpers 1
                 (history_session (str "abc") 2
                    (MemoryHistory (fst (MemoryHistory_Write [str "ls"] (str "make")))))))
  = str "make".
Proof.
  destruct (walkHistory_shows_last_written plainHelpers
              (history_session (str "abc") 2
                 (MemoryHistory (fst (MemoryHistory_Write [str "ls"] (str "make")))))
              "db" [str "ls"] (str "make")) as (_ & Hline & _).
  - reflexivity.
  - reflexivity.
  - reflexivity.
  - exact Hline.
Defined.
Lemma len_string_ascii_line (s : gostring) :
  ascii_line s -> string_of_runes s = s /\ len_string s = len s.
Proof.
  intros Hs. split; [|by apply len_string_ascii].
  apply string_of_runes_valid. unfold valid_line, ascii_line in *.
  eapply Forall_impl; [exact Hs|]. intros r Hr. simpl in Hr.
  unfold valid_rune.
  destruct (Z.leb_spec 0 r); [|lia]. destruct (Z.leb_spec r 1114111); [|lia].
  destruct (Z.leb_spec 55296 r); [lia|]. reflexivity.
Qed.

Lemma walk_reached_history_state (history : History) (delta : Z) (rl : Instance) :
  historyNames (walk_reached history delta rl) = historyNames rl /\
  histories (walk_reached history delta rl) = histories rl /\
  lineBuf (walk_reached history delta rl)
  = (if (histPos rl =? 0) && (histPos rl + delta =? 1)
     then string_of_runes (line rl) else lineBuf rl).
Proof.
  unfold walk_reached. cbv zeta. cbn [histPos set_hist line].
  destruct ((histPos rl =? 0) && (histPos rl + delta =? 1));
    cbn [histPos set_hist lineBuf];
    destruct (histPos rl + delta >? Len history); [done| |done|];
    destruct (histPos rl + delta <? 0); [done| |done|];
    destruct (histPos rl + delta =? 0); done.
Qed.

Lemma walk_reached_line (history : History) (delta : Z) (rl : Instance) :
  0 <= Len history ->
  histPos rl + delta = 0 ->
  line (walk_reached history delta rl) = lineBuf (walk_reached history delta rl) /\
  pos (walk_reached history delta rl)
  = len_string (lineBuf (walk_reached history delta rl)).
Proof.
  intros Hlen Hzero. unfold walk_reached. cbv zeta. cbn [histPos set_hist line].
  destruct ((histPos rl =? 0) && (histPos rl + delta =? 1));
    cbn [histPos set_hist lineBuf];
    (destruct (Z.gtb_spec (histPos rl + delta) (Len history)); [lia|]);
    (destruct (Z.ltb_spec (histPos rl + delta) 0); [lia|]);
    (destruct (Z.eqb_spec (histPos rl + delta) 0); [|lia]); done.
Qed.

(** X24.  Up and down again: from the line being typed, a step back into the
    history followed by a step forward puts the typed line back (as the
    conversion to a string and back leaves it) and the history index at 0.
    The cursor is set to the number of BYTES of the saved line: on a line of
    single-byte code points that is the end of the line.  [clearLine] is
    taken to leave the history state alone. *)
Theorem walkHistory_up_and_down (h : Helpers) (rl : Instance)
    (name : string) (history : History) (next : gostring) :
  keeps_history (clearLine h) ->
  index (historyNames rl) 0 = Some name ->
  histories rl !! name = Some history ->
  histPos rl = 0 ->
  0 < Len history ->
  GetLine history (Len history - 1) = Some (next, None) ->
  let up := final (walkHistory h 1 rl) in
  let down := final (walkHistory h (-1) up) in
  line up = next /\
  faulted (walkHistory h (-1) up) = false /\
  line down = string_of_runes (line rl) /\
  pos down = len_string (string_of_runes (line rl)) /\
  histPos down = 0 /\
  (ascii_line (line rl) -> line down = line rl /\ pos down = len (line rl)).
Proof.
  intros Hclear Hname Hhist Hpos Hlen Hget.
  set (s1 := walk_reached history 1 rl).
  assert (Hs1 : histPos s1 = 1 /\ lineBuf s1 = string_of_runes (line rl) /\
                historyNames s1 = historyNames rl /\ histories s1 = histories rl).
  { destruct (walk_reached_history_state history 1 rl) as (Hn & Hm & Hb).
    fold s1 in Hn, Hm, Hb. rewrite Hpos in Hb.
    unfold s1. rewrite walk_reached_histPos. unfold walk_position. cbv zeta.
    rewrite Hpos.
    destruct (Z.gtb_spec (0 + 1) (Len history)); [lia|].
    destruct (Z.ltb_spec (0 + 1) 0); [lia|]. done. }
  destruct Hs1 as (Hh1 & Hb1 & Hn1 & Hm1).
  assert (Hup : walkHistory h 1 rl
                = Done tt (set_pos (len next) (set_line next (clearLine h s1)))).
  { rewrite (walkHistory_unfold h 1 rl name history Hname Hhist) by lia.
    cbv zeta. fold s1. rewrite Hh1.
    change (1 >? 0) with true. cbv iota. rewrite Hget. reflexivity. }
  intros up down. unfold down, up. rewrite Hup. cbn [final].
  set (u := set_pos (len next) (set_line next (clearLine h s1))).
  destruct (Hclear s1) as (Hch & Hcb & Hcn & Hcm).
  assert (Hu : histPos u = 1 /\ lineBuf u = string_of_runes (line rl) /\
               historyNames u = historyNames rl /\ histories u = histories rl).
  { unfold u. cbn [histPos lineBuf historyNames histories set_pos set_line].
    rewrite Hch, Hcb, Hcn, Hcm. done. }
  destruct Hu as (Hhu & Hbu & Hnu & Hmu).
  set (s2 := walk_reached history (-1) u).
  assert (Hs2 : histPos s2 = 0 /\ line s2 = string_of_runes (line rl) /\
                pos s2 = len_string (string_of_runes (line rl))).
  { destruct (walk_reached_history_state history (-1) u) as (_ & _ & Hb).
    destruct (walk_reached_line history (-1) u) as (Hl & Hp); [lia|lia|].
    fold s2 in Hb, Hl, Hp. rewrite Hhu, Hbu in Hb.
    change ((1 =? 0) && (1 + -1 =? 1)) with false in Hb. cbv iota in Hb.
    rewrite Hl, Hp, Hb.
    unfold s2. rewrite walk_reached_histPos. unfold walk_position. cbv zeta.
    rewrite Hhu.
    destruct (Z.gtb_spec (1 + -1) (Len history)); [lia|].
    destruct (Z.ltb_spec (1 + -1) 0); [lia|]. done. }
  destruct Hs2 as (Hh2 & Hl2 & Hp2).
  assert (Hdown : walkHistory h (-1) u = Done tt s2).
  { rewrite (walkHistory_unfold h (-1) u name history) by (rewrite ?Hnu, ?Hmu; done || lia).
    cbv zeta. fold s2. rewrite Hh2. reflexivity. }
  rewrite Hdown. cbn [final faulted].
  split; [done|]. split; [done|]. split; [done|]. split; [done|].
  split; [done|]. intros Hascii.
  destruct (len_string_ascii_line (line rl) Hascii) as [Hsame Hbytes].
  rewrite Hl2, Hp2, Hsame. done.
Qed.

Lemma walkHistory_up_and_down_witness :
  let rl := history_session (str "abc") 2 (MemoryHistory [str "ls"; str "pwd"]) in
  line (final (walkHistory plainHelpers (-1) (final (walkHistory plainHelpers 1 rl))))
  = str "abc".
Proof.
  destruct (walkHistory_up_and_down plainHelpers
              (history_session (str "abc") 2 (MemoryHistory [str "ls"; str "pwd"]))
              "db" (MemoryHistory [str "ls"; str "pwd"]) (str "pwd"))
    as (_ & _ & Hline & _).
  - apply plainHelpers_keep_history.
  - reflexivity.
  - reflexivity.
  - reflexivity.
  - simpl. unfold len. simpl. lia.
  - reflexivity.
  - exact Hline.
Defined.

(** A typed line with a two-byte code point: back from the history the
    cursor is beyond the end of the line. *)
Example walkHistory_down_cursor_in_bytes :
  let rl := history_session [233; 233] 2 (MemoryHistory [str "ls"]) in
  let down := final (walkHistory plainHelpers (-1)
                       (final (walkHistory plainHelpers 1 rl))) in
  line down = [233; 233] /\ pos down = 4.
Proof. split; reflexivity. Qed.

(** ** History sources *)

(** X25.  [nextHistorySource] and [prevHistorySource] cycle through the
    sources: from a valid source index both stay inside the list of names,
    and each undoes the other. *)
Theorem historySource_cycle (rl : Instance) :
  0 <= historySourcePos rl < len (historyNames rl) ->
  let next := final (nextHistorySource rl) in
  let prev := final (prevHistorySource rl) in
  0 <= historySourcePos next < len (historyNames rl) /\
  0 <= historySourcePos prev < len (historyNames rl) /\
  historySourcePos (final (prevHistorySource next)) = historySourcePos rl /\
  historySourcePos (final (nextHistorySource prev)) = historySourcePos rl.
Proof.
  intros Hrange.
  unfold nextHistorySource, prevHistorySource, bind, modify.
  cbn [final historySourcePos historyNames set_hist].
  destruct (Z.eqb_spec (historySourcePos rl + 1) (len (historyNames rl)));
    destruct (Z.ltb_spec (historySourcePos rl - 1) 0);
    cbn [final historySourcePos historyNames set_hist];
    repeat match goal with
      | |- context [?a =? ?b] => destruct (Z.eqb_spec a b)
      | |- context [?a <? ?b] => destruct (Z.ltb_spec a b)
      end;
    cbn [final historySourcePos historyNames set_hist]; lia.
Qed.

Lemma historySource_cycle_witness :
  historySourcePos
    (final (prevHistorySource (final (nextHistorySource (session [] 0))))) = 0.
Proof.
  destruct (historySource_cycle (session [] 0)) as (_ & _ & H & _).
  - simpl. unfold len. simpl. lia.
  - exact H.
Defined.
Lemma AddHistorySource_unfold (name : string) (history : History) (rl : Instance) :
  AddHistorySource name history rl =
  if Z.of_nat (size (histories rl)) =? 1 then
    match index (historyNames rl) 0 with
    | None => Fault rl
    | Some first =>
        if String.eqb first "local history"
        then Done tt (set_sources ([] ++ [name])
                        (<[name := history]>
                           (delete "local history"%string (histories rl))) rl)
        else Done tt (set_sources (historyNames rl ++ [name])
                        (<[name := history]> (histories rl)) rl)
    end
  else Done tt (set_sources (historyNames rl ++ [name])
                  (<[name := history]> (histories rl)) rl).
Proof.
  unfold AddHistorySource, bind, get, try, ret, modify.
  destruct (Z.of_nat (size (histories rl)) =? 1); [|reflexivity].
  destruct (index (historyNames rl) 0) as [first|]; [|reflexivity].
  destruct (String.eqb first "local history"); reflexivity.
Qed.

(** X26.  The first source a program adds replaces the history bound by
    default: on a session whose only source is ["local history"],
    [AddHistorySource] leaves the new source as the only one, and it is the
    one a history walk uses. *)
Theorem AddHistorySource_replaces_default (name : string) (history : History)
    (rl : Instance) (default : History) :
  historyNames rl = ["local history"%string] ->
  histories rl = {[ "local history"%string := default ]} ->
  let after := final (AddHistorySource name history rl) in
  faulted (AddHistorySource name history rl) = false /\
  historyNames after = [name] /\
  histories after = {[ name := history ]} /\
  currentHistory (set_hist (histPos after) (lineBuf after) 0 after)
  = Some (Some history).
Proof.
  intros Hnames Hmap. rewrite AddHistorySource_unfold.
  rewrite Hmap, Hnames, map_size_singleton.
  change (Z.of_nat 1 =? 1) with true. cbv iota.
  change (index ["local history"%string] 0) with (Some "local history"%string).
  cbv iota.
  change (String.eqb "local history" "local history") with true. cbv iota.
  cbn [final faulted historyNames histories set_sources].
  rewrite delete_singleton_eq, insert_empty.
  split; [done|]. split; [done|]. split; [done|].
  apply (currentHistory_first name).
  - reflexivity.
  - cbn [histories set_sources]. apply lookup_singleton_eq.
Qed.

Lemma AddHistorySource_replaces_default_witness :
  historyNames (final (AddHistorySource "db" (fileHistory [str "ls"]) (session [] 0)))
  = ["db"%string].
Proof.
  destruct (AddHistorySource_replaces_default "db" (fileHistory [str "ls"])
              (session [] 0) (MemoryHistory [])) as (_ & Hnames & _).
  - reflexivity.
  - reflexivity.
  - exact Hnames.
Defined.

(** X27.  [AddHistorySource] keeps the names and the bound histories in
    step: if every name had a history and every history a name (and so it
    does not fault), the same holds afterwards, the new name is the last of
    the names and it is bound to the new history. *)
Theorem AddHistorySource_keeps_names_bound (name : string) (history : History)
    (rl : Instance) :
  (forall n, n ∈ historyNames rl <-> is_Some (histories rl !! n)) ->
  let after := final (AddHistorySource name history rl) in
  faulted (AddHistorySource name history rl) = false /\
  (forall n, n ∈ historyNames after <-> is_Some (histories after !! n)) /\
  last (historyNames after) = Some name /\
  histories after !! name = Some history.
Proof.
  intros Hsync.
  assert (Hadd : forall names (hs : gmap string History),
            (forall n, n ∈ names <-> is_Some (hs !! n)) ->
            (forall n, n ∈ names ++ [name]
                       <-> is_Some (<[name := history]> hs !! n)) /\
            last (names ++ [name]) = Some name /\
            <[name := history]> hs !! name = Some history).
  { intros names hs H. split; [|split].
    - intros n. rewrite elem_of_app, list_elem_of_singleton, H.
      destruct (decide (n = name)) as [->|Hne].
      + rewrite lookup_insert_eq. split; [eauto|by right].
      + rewrite lookup_insert_ne by done. split; [intros [?|?]; done|by left].
    - apply last_snoc.
    - apply lookup_insert_eq. }
  rewrite AddHistorySource_unfold.
  destruct (Z.eqb_spec (Z.of_nat (size (histories rl))) 1) as [Hone|Hmany].
  - destruct (historyNames rl) as [|first names] eqn:Hnames.
    + exfalso. assert (histories rl = ∅) as Hempty.
      { apply map_empty. intros n. apply eq_None_not_Some.
        rewrite <- Hsync. apply not_elem_of_nil. }
      rewrite Hempty, map_size_empty in Hone. lia.
    + change (index (first :: names) 0) with (Some first). cbv iota.
      destruct (String.eqb_spec first "local history") as [->|Hother].
      * cbn [final faulted historyNames histories set_sources].
        split; [done|]. apply (Hadd [] (delete "local history"%string (histories rl))).
        intros n. split; [by intros ?%not_elem_of_nil|].
        intros [x Hx]. exfalso.
        apply lookup_delete_Some in Hx as [Hne Hx].
        assert (Hin : "local history"%string ∈ "local history"%string :: names)
          by apply list_elem_of_here.
        apply Hsync in Hin as [d Hd].
        assert (size (histories rl) >= 2)%nat; [|lia].
        rewrite <- (insert_delete_id (histories rl) "local history"%string d Hd).
        rewrite map_size_insert_None by apply lookup_delete_eq.
        assert (size (delete "local history"%string (histories rl)) <> 0)%nat; [|lia].
        intros Hzero%map_size_empty_iff.
        assert (delete "local history"%string (histories rl) !! n = Some x) as Hn
          by (by apply lookup_delete_Some).
        by rewrite Hzero, lookup_empty in Hn.
      * cbn [final faulted historyNames histories set_sources].
        split; [done|]. by apply Hadd.
  - cbn [final faulted historyNames histories set_sources].
    split; [done|]. by apply Hadd.
Qed.

Lemma AddHistorySource_keeps_names_bound_witness :
  histories (final (AddHistorySource "db" (fileHistory [str "ls"]) (session [] 0)))
    !! "db"%string = Some (fileHistory [str "ls"]).
Proof.
  destruct (AddHistorySource_keeps_names_bound "db" (fileHistory [str "ls"])
              (session [] 0)) as (_ & _ & _ & Hbound).
  - intros n. simpl. rewrite list_elem_of_singleton. split.
    + intros ->. rewrite lookup_singleton_eq. eauto.
    + intros [x Hx]. apply lookup_singleton_Some in Hx. by destruct Hx.
  - exact Hbound.
Defined.

(** X28.  [DeleteHistorySource] without arguments removes every source, and
    its deferred [initHistory] also replaces the undo history by the initial
    empty snapshot.  A history walk in the state it leaves does nothing: no
    fault, nothing printed, the line and the cursor as they were. *)
Theorem DeleteHistorySource_all (inferLine : bool) (rl : Instance)
    (h : Helpers) (delta : Z) :
  let after := final (DeleteHistorySource inferLine [] rl) in
  let walked := walkHistory h delta after in
  faulted (DeleteHistorySource inferLine [] rl) = false /\
  historyNames after = [] /\ histories after = ∅ /\
  undoHistory after = [mkUndo [] 0] /\
  historySourcePos after = 0 /\
  line after = line rl /\ pos after = pos rl /\
  faulted walked = false /\
  line (final walked) = line rl /\ pos (final walked) = pos rl /\
  printed (final walked) = printed rl.
Proof.
  unfold DeleteHistorySource, initHistory, bind, modify, ret.
  change (len [] =? 0) with true. cbv iota.
  destruct inferLine;
    cbn [final faulted historyNames histories undoHistory historySourcePos
           line pos set_sources set_hist set_undo];
    (repeat (split; [done|]));
    unfold walkHistory, bind, modify, try, ret, currentHistory;
    cbn [histories set_hist set_sources set_undo];
    rewrite map_size_empty; done.
Qed.

(** ** Writing to a file history *)

Lemma List_last_lookup {A} (l : list A) (d : A) (i : nat) (x : A) :
  l !! i = Some x -> S i = length l -> List.last l d = x.
Proof.
  revert i. induction l as [|a l IH]; intros i Hx Hi; [discriminate|].
  destruct l as [|b l].
  - destruct i; [|discriminate]. by injection Hx.
  - destruct i as [|i]; [discriminate|].
    change (List.last (a :: b :: l) d) with (List.last (b :: l) d).
    apply (IH i); [exact Hx|]. simpl in Hi. simpl. lia.
Qed.

Lemma List_last_snoc {A} (l : list A) (d x : A) : List.last (l ++ [x]) d = x.
Proof.
  apply (List_last_lookup _ _ (length l)).
  - by rewrite lookup_app_r, Nat.sub_diag by lia.
  - rewrite length_app. simpl. lia.
Qed.

Lemma no_repeat_snoc (entries : list gostring) (block : gostring) :
  no_repeat entries ->
  entries = [] \/ List.last entries [] <> block ->
  no_repeat (entries ++ [block]).
Proof.
  intros Hnr Hlast i x y Hx Hy.
  destruct (decide (S i < length entries)%nat) as [Hin|Hout].
  - rewrite lookup_app_l in Hx by lia. rewrite lookup_app_l in Hy by lia.
    by apply (Hnr i).
  - destruct (decide (S i = length entries)) as [Heq|Hne].
    + rewrite lookup_app_l in Hx by lia.
      rewrite lookup_app_r in Hy by lia.
      replace (S i - length entries)%nat with 0%nat in Hy by lia.
      injection Hy as <-.
      destruct Hlast as [->|Hlast]; [discriminate|].
      intros ->. apply Hlast. by apply (List_last_lookup _ _ i).
    + apply lookup_lt_Some in Hy. rewrite length_app in Hy. simpl in Hy. lia.
Qed.

(** X29.  [fileHistory.Write] keeps the list free of adjacent duplicates: the
    trimmed line is its last entry afterwards, it is appended only when it
    differs from the entry before it, and writing the same line once more
    leaves the list as it is.  The file is another matter: whenever it can be
    opened, the trimmed line and a newline are appended to it, also when the
    list did not grow; and when it cannot, the answer is 0 and the error,
    the list being updated all the same. *)
Theorem fileHistory_Write_no_adjacent_duplicates (entries : list gostring)
    (s : gostring) (openErr writeErr : option string) :
  no_repeat entries ->
  let out := fileHistory_Write entries s openErr writeErr in
  let after := fst (fst out) in
  no_repeat after /\
  List.last after [] = TrimSpace s /\
  (after = entries \/ after = entries ++ [TrimSpace s]) /\
  (after = entries <-> entries <> [] /\ List.last entries [] = TrimSpace s) /\
  fst (fst (fileHistory_Write after s openErr writeErr)) = after /\
  match openErr with
  | Some err => snd (fst out) = (0, Some err) /\ snd out = None
  | None => snd (fst out) = (len after, writeErr) /\
            snd out = Some (TrimSpace s ++ [10])
  end.
Proof.
  intros Hnr out after.
  assert (Hafter : after =
            if (len entries =? 0) || negb (string_eqb (List.last entries []) (TrimSpace s))
            then entries ++ [TrimSpace s] else entries).
  { unfold after, out, fileHistory_Write. by destruct openErr. }
  assert (Hout : match openErr with
                 | Some err => snd (fst out) = (0, Some err) /\ snd out = None
                 | None => snd (fst out) = (len after, writeErr) /\
                           snd out = Some (TrimSpace s ++ [10])
                 end).
  { unfold after, out, fileHistory_Write. by destruct openErr. }
  assert (Hagain : fst (fst (fileHistory_Write after s openErr writeErr)) =
            if (len after =? 0) || negb (string_eqb (List.last after []) (TrimSpace s))
            then after ++ [TrimSpace s] else after).
  { unfold fileHistory_Write. by destruct openErr. }
  clearbody after. clearbody out.
  assert (Hgrow : forall l : list gostring, l ++ [TrimSpace s] <> l).
  { intros l Heq. apply (f_equal length) in Heq. rewrite length_app in Heq.
    simpl in Heq. lia. }
  assert (Hlast : List.last after [] = TrimSpace s /\ after <> []).
  { rewrite Hafter. destruct (Z.eqb_spec (len entries) 0) as [Hempty|Hsome].
    - simpl. rewrite List_last_snoc. split; [done|]. by destruct entries.
    - simpl. destruct (string_eqb (List.last entries []) (TrimSpace s)) eqn:Heq.
      + simpl. apply string_eqb_spec in Heq. split; [done|].
        intros ->. by apply Hsome.
      + simpl. rewrite List_last_snoc. split; [done|]. by destruct entries. }
  destruct Hlast as [Hlast Hnonempty].
  split; [|split; [exact Hlast|split; [|split; [|split; [|exact Hout]]]]].
  - rewrite Hafter. destruct (Z.eqb_spec (len entries) 0) as [Hempty|Hsome].
    + simpl. apply no_repeat_snoc; [done|]. left.
      destruct entries; [done|]. rewrite len_cons in Hempty.
      pose proof (len_nonneg entries). lia.
    + simpl. destruct (string_eqb (List.last entries []) (TrimSpace s)) eqn:Heq.
      * done.
      * simpl. apply no_repeat_snoc; [done|]. right. intros H.
        apply string_eqb_spec in H. congruence.
  - rewrite Hafter.
    destruct ((len entries =? 0) || negb (string_eqb (List.last entries []) (TrimSpace s)));
      [by right|by left].
  - rewrite Hafter. destruct (Z.eqb_spec (len entries) 0) as [Hempty|Hsome].
    + simpl. split; [by intros ?%Hgrow|]. intros [Hne _].
      destruct entries; [done|]. rewrite len_cons in Hempty.
      pose proof (len_nonneg entries). lia.
    + simpl. destruct (string_eqb (List.last entries []) (TrimSpace s)) eqn:Heq.
      * simpl. apply string_eqb_spec in Heq. split; [|done]. intros _.
        split; [|done]. intros ->. by apply Hsome.
      * simpl. split; [by intros ?%Hgrow|]. intros [_ H].
        apply string_eqb_spec in H. congruence.
  - rewrite Hagain.
    destruct (Z.eqb_spec (len after) 0) as [Hempty|_].
    + destruct after; [done|]. rewrite len_cons in Hempty.
      pose proof (len_nonneg after). lia.
    + simpl. apply string_eqb_spec in Hlast. by rewrite Hlast.
Qed.

Lemma fileHistory_Write_no_adjacent_duplicates_witness :
  fst (fst (fileHistory_Write [str "ls"; str "pwd"] (str " pwd ") None None))
  = [str "ls"; str "pwd"].
Proof.
  destruct (fileHistory_Write_no_adjacent_duplicates [str "ls"; str "pwd"]
              (str " pwd ") None None) as (_ & _ & _ & Hsame & _).
  - intros [|[|i]] x y Hx Hy; [|discriminate..].
    injection Hx as <-. injection Hy as <-. discriminate.
  - apply Hsame. split; [discriminate|reflexivity].
Defined.

(** ** Wrapping a hint *)

Lemma Fields_loop_app_space (a b : gostring) (sp : rune) :
  is_space sp = true ->
  forall cur, Fields_loop (a ++ sp :: b) cur = Fields_loop a cur ++ Fields b.
Proof.
  intros Hsp. induction a as [|r a IH]; intros cur.
  - simpl. rewrite Hsp. by destruct cur.
  - simpl. destruct (is_space r).
    + destruct cur; simpl; by rewrite IH.
    + apply IH.
Qed.

Lemma Fields_loop_word (w : gostring) :
  Forall (fun r => is_space r = false) w ->
  forall cur, cur ++ w <> [] -> Fields_loop w cur = [cur ++ w].
Proof.
  induction 1 as [|r w Hr _ IH]; intros cur Hne.
  - rewrite app_nil_r in *. simpl. by destruct cur.
  - simpl. rewrite Hr. rewrite IH, <- app_assoc; [done|].
    rewrite <- app_assoc. exact Hne.
Qed.

Lemma Fields_loop_words (s : gostring) :
  forall cur, Forall (fun r => is_space r = false) cur ->
  Forall (fun w => w <> [] /\ Forall (fun r => is_space r = false) w)
    (Fields_loop s cur).
Proof.
  induction s as [|r s IH]; intros cur Hcur.
  - simpl. destruct cur; [constructor|].
    constructor; [split; [done|exact Hcur]|constructor].
  - simpl. destruct (is_space r) eqn:Hr.
    + destruct cur.
      * apply IH. constructor.
      * constructor; [split; [done|exact Hcur]|]. apply IH. constructor.
    + apply IH. apply Forall_app. split; [exact Hcur|].
      constructor; [exact Hr|constructor].
Qed.

Lemma count_newlines_app (a b : gostring) :
  count_newlines (a ++ b) = count_newlines a + count_newlines b.
Proof. unfold count_newlines. by rewrite filter_app, len_app. Qed.

Lemma count_newlines_word (w : gostring) :
  Forall (fun r => is_space r = false) w -> count_newlines w = 0.
Proof.
  unfold count_newlines. induction 1 as [|r w Hr _ IH]; [done|].
  rewrite filter_cons. destruct (decide (r = 10)) as [->|_]; [discriminate|done].
Qed.

Lemma wrapText_loop_words (strip : gostring -> gostring) (lineWidth : Z)
    (words : list gostring) :
  Forall (fun w => w <> [] /\ Forall (fun r => is_space r = false) w) words ->
  forall wrapped spaceLeft lines,
    let out := wrapText_loop strip lineWidth words wrapped spaceLeft lines in
    Fields (fst out) = Fields wrapped ++ words /\
    snd out - count_newlines (fst out) = lines - count_newlines wrapped.
Proof.
  induction 1 as [|word words [Hne Hword] _ IH]; intros wrapped spaceLeft lines.
  - simpl. by rewrite app_nil_r.
  - assert (Hfields : forall sp, is_space sp = true ->
              Fields (wrapped ++ [sp] ++ word) = Fields wrapped ++ [word]).
    { intros sp Hsp. unfold Fields at 1. simpl.
      rewrite (Fields_loop_app_space _ _ _ Hsp). unfold Fields.
      by rewrite (Fields_loop_word word Hword []). }
    assert (Hcount : forall sp, count_newlines (wrapped ++ [sp] ++ word)
                                = count_newlines wrapped + count_newlines [sp]).
    { intros sp. rewrite !count_newlines_app, (count_newlines_word word Hword). lia. }
    cbn [wrapText_loop].
    destruct (len_string (strip word) + 1 >? spaceLeft).
    + specialize (IH (wrapped ++ [10] ++ word) (lineWidth - len_string word) (lines + 1)).
      cbv zeta in *. destruct IH as [IH1 IH2].
      rewrite IH1, IH2, Hfields, Hcount, <- app_assoc by done.
      split; [done|]. change (count_newlines [10]) with 1. lia.
    + specialize (IH (wrapped ++ [32] ++ word) (spaceLeft - (1 + len_string word)) lines).
      cbv zeta in *. destruct IH as [IH1 IH2].
      rewrite IH1, IH2, Hfields, Hcount, <- app_assoc by done.
      split; [done|]. change (count_newlines [32]) with 0. lia.
Qed.

(** X30.  [wrapText] changes nothing but the white space: the words of the
    wrapped text are the words of the text, in their order, for every width
    and whatever [ansi.Strip] answers.  The number of lines it returns is the
    number of lines of the wrapped text (its newlines plus one), and 0 with
    the empty text when the text has no word. *)
Theorem wrapText_keeps_words (strip : gostring -> gostring) (text : gostring)
    (lineWidth : Z) :
  let wrapped := fst (wrapText strip text lineWidth) in
  let lines := snd (wrapText strip text lineWidth) in
  Fields wrapped = Fields text /\
  match Fields text with
  | [] => wrapped = [] /\ lines = 0
  | _ :: _ => lines = count_newlines wrapped + 1
  end.
Proof.
  unfold wrapText.
  pose proof (Fields_loop_words text [] (List.Forall_nil _)) as Hwords.
  fold (Fields text) in Hwords.
  destruct (Fields text) as [|first rest] eqn:Htext; [done|].
  apply Forall_cons in Hwords as [[Hne Hfirst] Hrest].
  pose proof (wrapText_loop_words strip lineWidth rest Hrest first
                (lineWidth - len_string first)
                (if negb (string_eqb text []) then 1 else 0)) as [Hf Hl].
  cbv zeta. split.
  - rewrite Hf. unfold Fields at 1. by rewrite (Fields_loop_word first Hfirst []).
  - rewrite (count_newlines_word first Hfirst) in Hl.
    destruct text as [|r text]; [discriminate|].
    cbn [string_eqb negb] in Hl |- *. lia.
Qed.
